(** * FPSPACK Panel: the thread manager (core/thread_manager.py)

    A shallow embedding of [TaskResult], [WorkerThread], [ThreadManager]
    and the global instance of the module, and of the part of
    [concurrent.futures] they rely on, followed by the properties of the
    task facility.

    Conventions of the embedding
    - Python's threads are interleaved at the granularity of the statements
      that touch shared state: every operation of the manager and every step
      of a worker is one atomic transition ([exec_op]).
    - Qt signals are recorded in the order of their emission in the field
      [signals] of the manager; a signal of a [WorkerThread] is forwarded to
      the manager's signal of the same kind, as [submit_task] connects them.
    - A callable is known to the facility only through the callbacks it
      invokes and the way it ends, so it is a script: the list of callback
      invocations it makes, and then a returned value or a raised exception.
    - Exceptions are instances of [Exception] (what [except Exception]
      catches), carried with their class name and their [str()]. *)

From Stdlib Require Import Ascii String DecimalString DecimalN.
From stdpp Require Import gmap strings list fin_maps relations.

Local Open Scope string_scope.

(** ** Task identifiers *)

Module TaskId.

(** [str(n)] for a non-negative Python integer. *)
Definition py_str_int (n : N) : string :=
  NilEmpty.string_of_uint (N.to_uint n).

(** Lines 124-128: [f"task_{counter}_{int(time.time())}"], prefixed by
    [f"{task_name}_"] when [task_name] is truthy ([None] and the empty
    string are not). *)
Definition base_id (counter now : N) : string :=
  "task_" +:+ py_str_int counter +:+ "_" +:+ py_str_int now.

Definition truthy_name (task_name : option string) : bool :=
  match task_name with
  | None => false
  | Some "" => false
  | Some _ => true
  end.

Definition make_id (task_name : option string) (counter now : N) : string :=
  match task_name with
  | Some name =>
      if truthy_name task_name then name +:+ "_" +:+ base_id counter now
      else base_id counter now
  | None => base_id counter now
  end.

(** The identifier carries the counter value [c]. *)
Definition has_counter (tid : string) (c : N) : Prop :=
  ∃ task_name now, tid = make_id task_name c now.

Fixpoint no_underscore (s : string) : bool :=
  match s with
  | EmptyString => true
  | String a s' => if Ascii.eqb a "_"%char then false else no_underscore s'
  end.

End TaskId.



(** ** Values, exceptions and callables *)

(** An instance of [Exception]: its class and what [str(e)] gives. *)
Record exn := Exn { exn_class : string; exn_str : string }.

(** How a Python call ends. *)
Inductive outcome (A : Type) : Type :=
| Return (a : A)
| Raise (e : exn).
Arguments Return {A} a.
Arguments Raise {A} e.

(** The objects that travel through [*args] and [**kwargs].  The callbacks
    are the four the facility builds; everything a caller passes is opaque
    to it. *)
Inductive pyobj : Type :=
| PyOpaque (n : nat)
    (* an object of the caller: argument, result, or a callback of its own *)
| ManagerProgressCb (tid : string)
    (* line 163: lambda p: self.task_progress.emit(task_id, p) *)
| ManagerStatusCb (tid : string)
    (* line 165: lambda s: self.task_status.emit(task_id, s) *)
| WorkerProgressCb (k : nat)
    (* line 47: the bound method self._progress_callback of worker k *)
| WorkerStatusCb (k : nat).
    (* line 49: the bound method self._status_callback of worker k *)

(** A callback invocation made by a callable:
    [kwargs['progress_callback'](p)] or [kwargs['status_callback'](s)]. *)
Inductive invocation : Type :=
| CallProgress (p : Z)
| CallStatus (s : string).

(** A callable, as the facility observes it. *)
Record callable := Callable {
  calls : list invocation;
  ending : outcome pyobj
}.

(** ** TaskResult (lines 16-23); the clock reading [timestamp] is left out *)
Module TaskResult.
Record t := Make {
  task_id : string;
  success : bool;
  result : option pyobj;
  error : option string
}.
End TaskResult.

(** The four signals of [ThreadManager] (lines 81-84). *)
Inductive signal : Type :=
| task_started (tid : string)
| task_progress (tid : string) (p : Z)
| task_status (tid : string) (s : string)
| task_completed (r : TaskResult.t).


(** ** WorkerThread (lines 25-75) *)
Module WorkerThread.

(** Where the thread stands in [run]. *)
Inductive pc : Type :=
| AtRun      (* started, [run] not entered yet *)
| InFunc     (* line 51, inside [self.func] *)
| Finished   (* [run] has returned, the [finished] signal is on its way *)
| FinishedNotified.  (* the [finished] signal has been delivered *)

Record t := Make {
  task_id : string;
  func : callable;       (* what is left of it to run *)
  args : list pyobj;
  kwargs : gmap string pyobj;
  _is_cancelled : bool;
  at_pc : pc
}.

Definition new (task_id : string) (func : callable) (args : list pyobj)
    (kwargs : gmap string pyobj) : t :=
  Make task_id func args kwargs false AtRun.

(** Lines 46-49, for the worker stored at address [k]. *)
Definition inject (k : nat) (kw : gmap string pyobj) : gmap string pyobj :=
  let kw1 := match kw !! "progress_callback" with
             | None => <["progress_callback" := WorkerProgressCb k]> kw
             | Some _ => kw
             end in
  match kw1 !! "status_callback" with
  | None => <["status_callback" := WorkerStatusCb k]> kw1
  | Some _ => kw1
  end.

(** Lines 72-75. *)
Definition cancel (w : t) : t * list signal :=
  (Make (task_id w) (func w) (args w) (kwargs w) true (at_pc w),
   [task_status (task_id w) "Cancelado"]).

Definition with_pc (c : pc) (w : t) : t :=
  Make (task_id w) (func w) (args w) (kwargs w) (_is_cancelled w) c.

(** The thread is alive: [run] has not returned. *)
Definition is_live (w : t) : bool :=
  match at_pc w with AtRun | InFunc => true | _ => false end.

End WorkerThread.

(** ** concurrent.futures: Future and ThreadPoolExecutor *)
Module Future.

(** [CANCELLED_AND_NOTIFIED] behaves as [CANCELLED] for what the manager
    calls, so the two are one state here. *)
Inductive state : Type :=
| PENDING
| RUNNING
| CANCELLED
| FINISHED (r : outcome pyobj).

(** [Future.cancel]: new state and returned value. *)
Definition cancel (s : state) : state * bool :=
  match s with
  | RUNNING | FINISHED _ => (s, false)
  | CANCELLED => (s, true)
  | PENDING => (CANCELLED, true)
  end.

Definition done (s : state) : bool :=
  match s with
  | CANCELLED | FINISHED _ => true
  | PENDING | RUNNING => false
  end.

End Future.

Module ThreadPoolExecutor.

(** A work item with its future: the call
    [_execute_task(task_id, func, *args, **kwargs)] that was submitted. *)
Record work_item := WorkItem {
  task_id : string;
  func : callable;       (* what is left of it to run *)
  args : list pyobj;
  kwargs : gmap string pyobj;
  future : Future.state
}.

Record t := Make {
  _max_workers : nat;
  _work_items : list work_item;  (* in the order of submission *)
  _shutdown : bool
}.

Definition new (max_workers : nat) : outcome t :=
  if decide (max_workers = 0)
  then Raise (Exn "ValueError" "max_workers must be greater than 0")
  else Return (Make max_workers [] false).

(** [submit]: the new pool and the future, which is the index of the item. *)
Definition submit (p : t) (task_id : string) (func : callable)
    (args : list pyobj) (kwargs : gmap string pyobj) : outcome (t * nat) :=
  if _shutdown p
  then Raise (Exn "RuntimeError" "cannot schedule new futures after shutdown")
  else Return (Make (_max_workers p)
                 (_work_items p ++ [WorkItem task_id func args kwargs Future.PENDING])
                 false,
               length (_work_items p)).

Definition set_item (h : nat) (it : work_item) (p : t) : t :=
  Make (_max_workers p) (<[h := it]> (_work_items p)) (_shutdown p).

Definition with_future (s : Future.state) (it : work_item) : work_item :=
  WorkItem (task_id it) (func it) (args it) (kwargs it) s.

Definition future_state (p : t) (h : nat) : option Future.state :=
  future <$> _work_items p !! h.

Definition is_running (it : work_item) : bool :=
  match future it with Future.RUNNING => true | _ => false end.

Definition is_pending (it : work_item) : bool :=
  match future it with Future.PENDING => true | _ => false end.

Definition running_count (p : t) : nat :=
  length (filter (λ it, is_running it = true) (_work_items p)).

(** A worker thread is free to take item [h]: fewer than [max_workers]
    items are running and nothing older waits in the queue. *)
Definition may_pick (p : t) (h : nat) : bool :=
  bool_decide (running_count p < _max_workers p)
  && forallb (λ it, negb (is_pending it)) (take h (_work_items p)).

(** [shutdown(wait=...)]: no further submission.  With [wait] the caller
    joins the worker threads; [joins] tells whether there is work left to
    wait for. *)
Definition shutdown (p : t) : t :=
  Make (_max_workers p) (_work_items p) true.

Definition joins (p : t) : bool :=
  existsb (λ it, negb (Future.done (future it))) (_work_items p).

End ThreadPoolExecutor.

(** ** Names in scope inside [ThreadManager.shutdown] *)
Module Scope.

Inductive pyfunction : Type :=
| concurrent_futures_wait.

Inductive binding : Type :=
| BoundBool (b : bool)
| BoundNone
| BoundNumber (z : Z)
| BoundFunction (f : pyfunction).

(** Line 11: [from concurrent.futures import ThreadPoolExecutor, Future, wait]. *)
Definition module_globals : gmap string binding :=
  {[ "wait" := BoundFunction concurrent_futures_wait ]}.

(** Line 263: [def shutdown(self, wait: bool = True, timeout = 10.0)]; the
    parameters are the locals of the call. *)
Definition shutdown_locals (wait : bool) (timeout : option Z)
    : gmap string binding :=
  {[ "wait" := BoundBool wait;
     "timeout" := match timeout with
                  | Some z => BoundNumber z
                  | None => BoundNone
                  end ]}.

(** A name is looked up in the locals first, then in the module. *)
Definition resolve (locals : gmap string binding) (x : string)
    : option binding :=
  match locals !! x with
  | Some b => Some b
  | None => module_globals !! x
  end.

(** Calling what a name is bound to: only a function can be called. *)
Definition callee (locals : gmap string binding) (x : string)
    : outcome pyfunction :=
  match resolve locals x with
  | Some (BoundFunction f) => Return f
  | Some (BoundBool _) => Raise (Exn "TypeError" "'bool' object is not callable")
  | Some BoundNone => Raise (Exn "TypeError" "'NoneType' object is not callable")
  | Some (BoundNumber _) => Raise (Exn "TypeError" "'float' object is not callable")
  | None => Raise (Exn "NameError" ("name '" +:+ x +:+ "' is not defined"))
  end.

End Scope.

(** ** ThreadManager (lines 77-291) *)
Module ThreadManager.
Import ThreadPoolExecutor.

(** The dictionaries hold objects: a worker is its address in [qthreads],
    a future is the index of its work item in the pool. *)
Record t := Make {
  max_workers : nat;
  thread_pool : ThreadPoolExecutor.t;
  active_threads : gmap string nat;
  active_futures : gmap string nat;
  _task_counter : N;
  cleanup_timer : bool;            (* is the QTimer running *)
  qthreads : list WorkerThread.t;  (* the WorkerThread objects created *)
  signals : list signal            (* what has been emitted, oldest first *)
}.

Definition with_pool (p : ThreadPoolExecutor.t) (m : t) : t :=
  Make (max_workers m) p (active_threads m) (active_futures m)
    (_task_counter m) (cleanup_timer m) (qthreads m) (signals m).

Definition with_threads (a : gmap string nat) (m : t) : t :=
  Make (max_workers m) (thread_pool m) a (active_futures m)
    (_task_counter m) (cleanup_timer m) (qthreads m) (signals m).

Definition with_futures (a : gmap string nat) (m : t) : t :=
  Make (max_workers m) (thread_pool m) (active_threads m) a
    (_task_counter m) (cleanup_timer m) (qthreads m) (signals m).

Definition with_counter (c : N) (m : t) : t :=
  Make (max_workers m) (thread_pool m) (active_threads m) (active_futures m)
    c (cleanup_timer m) (qthreads m) (signals m).

Definition with_timer (b : bool) (m : t) : t :=
  Make (max_workers m) (thread_pool m) (active_threads m) (active_futures m)
    (_task_counter m) b (qthreads m) (signals m).

Definition with_qthreads (ws : list WorkerThread.t) (m : t) : t :=
  Make (max_workers m) (thread_pool m) (active_threads m) (active_futures m)
    (_task_counter m) (cleanup_timer m) ws (signals m).

Definition emit (ss : list signal) (m : t) : t :=
  Make (max_workers m) (thread_pool m) (active_threads m) (active_futures m)
    (_task_counter m) (cleanup_timer m) (qthreads m) (signals m ++ ss).

(** Lines 86-107. *)
Definition __init__ (max_workers : nat) : outcome t :=
  match ThreadPoolExecutor.new max_workers with
  | Raise e => Raise e
  | Return p => Return (Make max_workers p ∅ ∅ 0 true [] [])
  end.

(** Lines 123-128, the part of [submit_task] that runs under the lock and
    the prefixing that follows: the new counter and the identifier. *)
Definition next_task_id (m : t) (task_name : option string) (now : N)
    : N * string :=
  let c := (_task_counter m + 1)%N in
  (c, TaskId.make_id task_name c now).

(** Lines 109-154. *)
Definition submit_task (m : t) (func : callable) (args : list pyobj)
    (task_name : option string) (use_qthread : bool)
    (kwargs : gmap string pyobj) (now : N) : t * outcome string :=
  let '(c, task_id) := next_task_id m task_name now in
  let m := with_counter c m in
  if use_qthread then
    let worker := WorkerThread.new task_id func args kwargs in
    let k := length (qthreads m) in
    let m := with_qthreads (qthreads m ++ [worker]) m in
    let m := with_threads (<[task_id := k]> (active_threads m)) m in
    (emit [task_started task_id] m, Return task_id)
  else
    match ThreadPoolExecutor.submit (thread_pool m) task_id func args kwargs with
    | Return (p, future) =>
        let m := with_pool p m in
        let m := with_futures (<[task_id := future]> (active_futures m)) m in
        (emit [task_started task_id] m, Return task_id)
    | Raise e => (m, Raise e)
    end.

(** Calling a callback object (lines 62-70 and 163-165). *)
Definition invoke (m : t) (cb : option pyobj) (i : invocation)
    : list signal :=
  match cb, i with
  | Some (ManagerProgressCb tid), CallProgress p => [task_progress tid p]
  | Some (ManagerStatusCb tid), CallStatus s => [task_status tid s]
  | Some (WorkerProgressCb k), CallProgress p =>
      match qthreads m !! k with
      | Some w =>
          if WorkerThread._is_cancelled w then []
          else [task_progress (WorkerThread.task_id w) p]
      | None => []
      end
  | Some (WorkerStatusCb k), CallStatus s =>
      match qthreads m !! k with
      | Some w =>
          if WorkerThread._is_cancelled w then []
          else [task_status (WorkerThread.task_id w) s]
      | None => []
      end
  | _, _ => []
  end.

Definition callback_key (i : invocation) : string :=
  match i with
  | CallProgress _ => "progress_callback"
  | CallStatus _ => "status_callback"
  end.

(** Lines 162-165. *)
Definition inject (task_id : string) (kw : gmap string pyobj)
    : gmap string pyobj :=
  let kw1 := match kw !! "progress_callback" with
             | None => <["progress_callback" := ManagerProgressCb task_id]> kw
             | Some _ => kw
             end in
  match kw1 !! "status_callback" with
  | None => <["status_callback" := ManagerStatusCb task_id]> kw1
  | Some _ => kw1
  end.

Definition succeeded (task_id : string) (v : pyobj) : list signal :=
  [task_completed (TaskResult.Make task_id true (Some v) None);
   task_status task_id "Concluído"].

Definition failed (task_id : string) (e : exn) : list signal :=
  [task_completed (TaskResult.Make task_id false None (Some (exn_str e)));
   task_status task_id ("Erro: " +:+ exn_str e)].

(** A pool thread takes work item [h] and enters [_execute_task]
    (lines 158-165). *)
Definition pool_pick (h : nat) (m : t) : t :=
  let p := thread_pool m in
  match _work_items p !! h with
  | Some it =>
      if is_pending it && may_pick p h then
        let it' := WorkItem (task_id it) (func it) (args it)
                     (inject (task_id it) (kwargs it)) Future.RUNNING in
        emit [task_status (task_id it) "Executando..."]
          (with_pool (set_item h it' p) m)
      else m
  | None => m
  end.

(** The pool thread running item [h] goes one step further in
    [_execute_task] (lines 167-181): the callable makes its next callback
    invocation, or it ends. *)
Definition pool_step (h : nat) (m : t) : t :=
  let p := thread_pool m in
  match _work_items p !! h with
  | Some it =>
      if is_running it then
        match calls (func it) with
        | i :: rest =>
            let it' := WorkItem (task_id it) (Callable rest (ending (func it)))
                         (args it) (kwargs it) Future.RUNNING in
            emit (invoke m (kwargs it !! callback_key i) i)
              (with_pool (set_item h it' p) m)
        | [] =>
            let it' := with_future (Future.FINISHED (ending (func it))) it in
            match ending (func it) with
            | Return v =>
                emit (succeeded (task_id it) v) (with_pool (set_item h it' p) m)
            | Raise e =>
                emit (failed (task_id it) e) (with_pool (set_item h it' p) m)
            end
        end
      else m
  | None => m
  end.

(** The thread of worker [k] goes one step further in [run] (lines 40-60). *)
Definition worker_step (k : nat) (m : t) : t :=
  match qthreads m !! k with
  | Some w =>
      let tid := WorkerThread.task_id w in
      let put w' := with_qthreads (<[k := w']> (qthreads m)) m in
      match WorkerThread.at_pc w with
      | WorkerThread.AtRun =>
          let w' := WorkerThread.Make tid (WorkerThread.func w)
                      (WorkerThread.args w)
                      (WorkerThread.inject k (WorkerThread.kwargs w))
                      (WorkerThread._is_cancelled w) WorkerThread.InFunc in
          emit [task_status tid "Iniciando..."] (put w')
      | WorkerThread.InFunc =>
          match calls (WorkerThread.func w) with
          | i :: rest =>
              let w' := WorkerThread.Make tid
                          (Callable rest (ending (WorkerThread.func w)))
                          (WorkerThread.args w) (WorkerThread.kwargs w)
                          (WorkerThread._is_cancelled w) WorkerThread.InFunc in
              emit (invoke m (WorkerThread.kwargs w !! callback_key i) i)
                (put w')
          | [] =>
              let w' := WorkerThread.with_pc WorkerThread.Finished w in
              match ending (WorkerThread.func w) with
              | Return v =>
                  if WorkerThread._is_cancelled w then put w'
                  else emit (succeeded tid v) (put w')
              | Raise e => emit (failed tid e) (put w')
              end
          end
      | _ => m
      end
  | None => m
  end.

(** Lines 187-190. *)
Definition _cleanup_thread (task_id : string) (m : t) : t :=
  match active_threads m !! task_id with
  | Some _ => with_threads (delete task_id (active_threads m)) m
  | None => m
  end.

(** The [finished] signal of worker [k] reaches the lambda of line 137. *)
Definition thread_finished (k : nat) (m : t) : t :=
  match qthreads m !! k with
  | Some w =>
      match WorkerThread.at_pc w with
      | WorkerThread.Finished =>
          _cleanup_thread (WorkerThread.task_id w)
            (with_qthreads
               (<[k := WorkerThread.with_pc WorkerThread.FinishedNotified w]>
                  (qthreads m)) m)
      | _ => m
      end
  | None => m
  end.

Definition future_done (m : t) (future : nat) : bool :=
  match _work_items (thread_pool m) !! future with
  | Some it => Future.done (ThreadPoolExecutor.future it)
  | None => false
  end.

(** Lines 192-204. *)
Definition _cleanup_finished_tasks (m : t) : t :=
  let finished_tasks :=
    (filter (λ kv, future_done m kv.2 = true)
       (map_to_list (active_futures m))).*1 in
  with_futures
    (foldl (λ fs task_id, delete task_id fs) (active_futures m) finished_tasks)
    m.

(** [future.cancel()] on the future of work item [h]. *)
Definition future_cancel (h : nat) (m : t) : t * bool :=
  let p := thread_pool m in
  match _work_items p !! h with
  | Some it =>
      let '(s, b) := Future.cancel (ThreadPoolExecutor.future it) in
      (with_pool (set_item h (with_future s it) p) m, b)
  | None => (m, false)
  end.

(** Lines 206-237.  [thread.quit()] has no event loop to stop, and
    [thread.wait(3000)] only lets time pass. *)
Definition cancel_task (m : t) (task_id : string) : t * bool :=
  match active_threads m !! task_id with
  | Some k =>
      match qthreads m !! k with
      | Some thread =>
          let '(thread', ss) := WorkerThread.cancel thread in
          (emit ss (with_qthreads (<[k := thread']> (qthreads m)) m), true)
      | None => (m, false)
      end
  | None =>
      match active_futures m !! task_id with
      | Some future =>
          let '(m1, cancelled) := future_cancel future m in
          if cancelled
          then (with_futures (delete task_id (active_futures m1)) m1, true)
          else (m1, false)
      | None => (m, false)
      end
  end.

(** Lines 239-249. *)
Definition cancel_all_tasks (m : t) : t :=
  let m1 := foldl (λ m task_id, (cancel_task m task_id).1) m
              (map_to_list (active_threads m)).*1 in
  foldl (λ m task_id, (cancel_task m task_id).1) m1
    (map_to_list (active_futures m1)).*1.

(** Lines 251-253. *)
Definition get_active_tasks (m : t) : list string :=
  (map_to_list (active_threads m)).*1 ++ (map_to_list (active_futures m)).*1.

(** Lines 255-261: the entries 'qthreads', 'futures' and 'total'. *)
Definition get_task_count (m : t) : nat * nat * nat :=
  (size (active_threads m), size (active_futures m),
   size (active_threads m) + size (active_futures m)).

(** [concurrent.futures.wait(fs, timeout)], at the moment it gives up:
    the futures that are done and those that are not. *)
Definition futures_wait (m : t) (fs : list nat) : list nat * list nat :=
  (filter (λ h, future_done m h = true) fs,
   filter (λ h, future_done m h ≠ true) fs).

(** How a call of [shutdown] ends. *)
Inductive shutdown_end : Type :=
| ShutdownReturns
| ShutdownRaises (e : exn)
| ShutdownJoins.
  (* parked in [thread_pool.shutdown(wait=True)]: it returns once every
     work item of the pool has ended, and changes nothing more *)

(** Lines 263-291. *)
Definition shutdown (m : t) (wait : bool) (timeout : option Z)
    : t * shutdown_end :=
  let locals := Scope.shutdown_locals wait timeout in
  let m := with_timer false m in
  let m := cancel_all_tasks m in
  let finish (m : t) :=
    let m := with_pool (ThreadPoolExecutor.shutdown (thread_pool m)) m in
    (m, if wait && joins (thread_pool m) then ShutdownJoins
        else ShutdownReturns) in
  if wait && bool_decide (is_Some timeout)
     && negb (bool_decide (active_futures m = ∅)) then
    let remaining := (map_to_list (active_futures m)).*2 in
    match Scope.callee locals "wait" with
    | Raise e => (m, ShutdownRaises e)
    | Return Scope.concurrent_futures_wait =>
        let '(_, not_done) := futures_wait m remaining in
        finish (foldl (λ m future, (future_cancel future m).1) m not_done)
    end
  else finish m.

End ThreadManager.

(** ** Executions: the calls of the user interface and the steps of the
    threads, interleaved in any order *)
Module Run.
Import ThreadManager.

Inductive op : Type :=
| Submit (func : callable) (args : list pyobj) (task_name : option string)
    (use_qthread : bool) (kwargs : gmap string pyobj) (now : N)
| Cancel (task_id : string)
| CancelAll
| Shutdown (wait : bool) (timeout : option Z)
| TimerFires            (* the cleanup timer, every 5 seconds while it runs *)
| ThreadFinished (k : nat)
| PoolPick (h : nat)
| PoolStep (h : nat)
| WorkerStep (k : nat).

(** What the caller of an operation gets back. *)
Inductive response : Type :=
| Submitted (r : outcome string)
| Cancelled (b : bool)
| ShutDown (e : shutdown_end)
| NoResponse.

Definition exec_op (o : op) (m : t) : t * response :=
  match o with
  | Submit func args task_name use_qthread kwargs now =>
      let '(m', r) := submit_task m func args task_name use_qthread kwargs now in
      (m', Submitted r)
  | Cancel task_id =>
      let '(m', b) := cancel_task m task_id in (m', Cancelled b)
  | CancelAll => (cancel_all_tasks m, NoResponse)
  | Shutdown wait timeout =>
      let '(m', e) := shutdown m wait timeout in (m', ShutDown e)
  | TimerFires =>
      (if cleanup_timer m then _cleanup_finished_tasks m else m, NoResponse)
  | ThreadFinished k => (thread_finished k m, NoResponse)
  | PoolPick h => (pool_pick h m, NoResponse)
  | PoolStep h => (pool_step h m, NoResponse)
  | WorkerStep k => (worker_step k m, NoResponse)
  end.

Fixpoint run (ops : list op) (m : t) : t * list response :=
  match ops with
  | [] => (m, [])
  | o :: ops' =>
      let '(m1, r) := exec_op o m in
      let '(m2, rs) := run ops' m1 in
      (m2, r :: rs)
  end.

(** The identifiers handed out by the calls of [submit_task]. *)
Fixpoint issued (rs : list response) : list string :=
  match rs with
  | [] => []
  | Submitted (Return task_id) :: rs' => task_id :: issued rs'
  | _ :: rs' => issued rs'
  end.

(** The states a manager can be in. *)
Definition reachable (m : t) : Prop :=
  ∃ max_workers m0 ops,
    __init__ max_workers = Return m0 ∧ (run ops m0).1 = m.

End Run.

(** ** The global instance (lines 293-308) *)
Module Global.
Import ThreadManager.

(** Lines 296-301.  The state is what [_thread_manager] is bound to:
    [None], or the manager. *)
Definition get_thread_manager (g : option t) : option t * outcome t :=
  match g with
  | None =>
      match __init__ 4 with
      | Return m => (Some m, Return m)
      | Raise e => (None, Raise e)
      end
  | Some m => (g, Return m)
  end.

(** Lines 303-308: [shutdown()] is called with its defaults, [wait=True]
    and [timeout=10.0]; the global is cleared once it has returned. *)
Definition shutdown_thread_manager (g : option t) : option t * shutdown_end :=
  match g with
  | None => (None, ShutdownReturns)
  | Some m =>
      let '(m', e) := shutdown m true (Some 10%Z) in
      match e with
      | ShutdownRaises _ => (Some m', e)
      | _ => (None, e)
      end
  end.

End Global.

(** * What is said about the program: the notions the properties use *)

Import TaskId ThreadManager Run.

Local Abbreviation items m := (ThreadPoolExecutor._work_items (thread_pool m)).

Definition item_ids (m : t) : list string :=
  ThreadPoolExecutor.task_id <$> ThreadPoolExecutor._work_items (thread_pool m).

Definition worker_ids (m : t) : list string :=
  WorkerThread.task_id <$> qthreads m.

Definition same_ids (m m' : t) : Prop :=
  _task_counter m' = _task_counter m
  ∧ item_ids m' = item_ids m
  ∧ worker_ids m' = worker_ids m.

Definition completion_of (s : signal) : option string :=
  match s with
  | task_completed r => Some (TaskResult.task_id r)
  | _ => None
  end.

(** The number of [TaskResult]s emitted for [tid]. *)
Definition completions (tid : string) (ss : list signal) : nat :=
  length (filter (λ s, completion_of s = Some tid) ss).

(** Every [TaskResult] is followed at once by a status signal of its task. *)
Definition paired (ss : list signal) : Prop :=
  ∀ i r, ss !! i = Some (task_completed r) →
         ∃ s, ss !! S i = Some (task_status (TaskResult.task_id r) s).

(** The identifier was made from a counter value already used. *)
Definition bounded (m : t) (tid : string) : Prop :=
  ∃ c, TaskId.has_counter tid c ∧ (c ≤ _task_counter m)%N.

(** The [TaskResult]s a future in state [s] accounts for. *)
Definition results_of (s : Future.state) : nat :=
  match s with Future.FINISHED _ => 1 | _ => 0 end.

Definition raises (f : callable) : Prop := ∃ e, ending f = Raise e.

Record Inv (m : t) : Prop := {
  (* identifiers *)
  inv_item_ids : ∀ tid, tid ∈ item_ids m → bounded m tid;
  inv_worker_ids : ∀ tid, tid ∈ worker_ids m → bounded m tid;
  inv_nodup : NoDup (item_ids m ++ worker_ids m);
  (* the two dictionaries *)
  inv_threads : ∀ tid k, active_threads m !! tid = Some k →
    ∃ w, qthreads m !! k = Some w ∧ WorkerThread.task_id w = tid;
  inv_futures : ∀ tid h, active_futures m !! tid = Some h →
    ∃ it, items m !! h = Some it ∧ ThreadPoolExecutor.task_id it = tid;
  inv_live_threads : ∀ k w, qthreads m !! k = Some w →
    WorkerThread.is_live w = true →
    active_threads m !! WorkerThread.task_id w = Some k;
  inv_live_futures : ∀ h it, items m !! h = Some it →
    Future.done (ThreadPoolExecutor.future it) = false →
    active_futures m !! ThreadPoolExecutor.task_id it = Some h;
  (* the signals *)
  inv_paired : paired (signals m);
  inv_unknown : ∀ tid, tid ∉ item_ids m → tid ∉ worker_ids m →
    completions tid (signals m) = 0;
  inv_item_results : ∀ h it, items m !! h = Some it →
    completions (ThreadPoolExecutor.task_id it) (signals m)
    = results_of (ThreadPoolExecutor.future it);
  inv_worker_live : ∀ k w, qthreads m !! k = Some w →
    WorkerThread.is_live w = true →
    completions (WorkerThread.task_id w) (signals m) = 0;
  inv_worker_le : ∀ k w, qthreads m !! k = Some w →
    (completions (WorkerThread.task_id w) (signals m) ≤ 1)%nat;
  inv_worker_done : ∀ k w, qthreads m !! k = Some w →
    WorkerThread.is_live w = false →
    raises (WorkerThread.func w) ∨ WorkerThread._is_cancelled w = false →
    completions (WorkerThread.task_id w) (signals m) = 1
}.

(** A cancellation signal reached a record of the registry: the flag of
    the registered worker is set, or the registered future is cancelled. *)
Definition cancellation_delivered (m : t) (task_id : string) (m' : t) : Prop :=
  (∃ k w, active_threads m !! task_id = Some k ∧ qthreads m' !! k = Some w
          ∧ WorkerThread._is_cancelled w = true)
  ∨ (∃ h, active_futures m !! task_id = Some h
          ∧ ThreadPoolExecutor.future_state (thread_pool m') h
            = Some Future.CANCELLED).


(** Worker [k] has its flag set. *)
Definition flagged (k : nat) (m : t) : Prop :=
  ∃ w, qthreads m !! k = Some w ∧ WorkerThread._is_cancelled w = true.

(** A manager made by [ThreadManager()] with the default four workers. *)
Definition fresh_manager : t :=
  Make 4 (ThreadPoolExecutor.Make 4 [] false) ∅ ∅ 0 true [] [].

Definition type_error_bool : exn :=
  Exn "TypeError" "'bool' object is not callable".

Definition shutdown_error : exn :=
  Exn "RuntimeError" "cannot schedule new futures after shutdown".




(** The task is pending or running. *)
Definition task_active (m : t) (tid : string) : bool :=
  existsb (λ it, bool_decide (ThreadPoolExecutor.task_id it = tid)
                 && negb (Future.done (ThreadPoolExecutor.future it)))
    (items m)
  || existsb (λ w, bool_decide (WorkerThread.task_id w = tid)
                   && WorkerThread.is_live w)
       (qthreads m).

(** Is [s] a progress or a status signal of task [tid]. *)
Definition progress_or_status (tid : string) (s : signal) : bool :=
  match s with
  | task_progress tid' _ | task_status tid' _ => bool_decide (tid' = tid)
  | _ => false
  end.

(** Callables and runs used as examples. *)
Definition quiet_task : callable := Callable [] (Return (PyOpaque 0)).
Definition talking_task : callable :=
  Callable [CallProgress 50; CallStatus "half"] (Return (PyOpaque 1)).
Definition boom_task : callable := Callable [] (Raise (Exn "ValueError" "boom")).

Definition id1 : string := "task_1_1700000000".


(** A dedicated worker is cancelled while its callable runs; the callable
    then returns. *)
Definition run_cancel_midway : list op :=
  [Submit talking_task [] None true ∅ 1700000000; WorkerStep 0; WorkerStep 0;
   Cancel id1; WorkerStep 0; WorkerStep 0; ThreadFinished 0].

(** A pooled task runs to its end and is not swept yet. *)
Definition run_to_end : list op :=
  [Submit quiet_task [PyOpaque 5] None false ∅ 1700000000; PoolPick 0; PoolStep 0].


(** A dedicated worker is cancelled, then its callable raises. *)
Definition run_cancel_then_raise : list op :=
  [Submit boom_task [] None true ∅ 1700000000; WorkerStep 0; Cancel id1].


Definition id2 : string := "task_2_1700000000".

(** One pooled task is queued. *)
Definition run_queued : list op :=
  [Submit quiet_task [] None false ∅ 1700000000].



(** A queued pooled task and a dedicated worker that has not entered
    [run]. *)
Definition run_two_new : list op :=
  [Submit quiet_task [PyOpaque 5] None false ∅ 1700000000;
   Submit talking_task [] None true ∅ 1700000000].

(** ** Further notions *)

(** Is the operation a call of [submit_task]. *)
Definition is_submit (o : op) : bool :=
  match o with Submit _ _ _ _ _ _ => true | _ => false end.

(** [Future.cancel] gives [False] in this state: the call is running or has
    ended. *)
Definition cannot_cancel (s : Future.state) : bool :=
  match s with
  | Future.RUNNING | Future.FINISHED _ => true
  | Future.PENDING | Future.CANCELLED => false
  end.

(** The state of the future of work item [h]. *)
Definition state_of (m : t) (h : nat) : option Future.state :=
  ThreadPoolExecutor.future_state (thread_pool m) h.

(** What calls of [Future.cancel] can make of a state. *)
Definition settles (o o' : option Future.state) : Prop :=
  o' = o ∨ o' = (λ s, (Future.cancel s).1) <$> o.

(** The [finished] signal of the worker has been delivered. *)
Definition notified (w : WorkerThread.t) : bool :=
  match WorkerThread.at_pc w with
  | WorkerThread.FinishedNotified => true
  | _ => false
  end.

(** No worker whose [finished] signal was delivered is still in
    [active_threads]. *)
Definition notified_unregistered (m : t) : Prop :=
  ∀ k w, qthreads m !! k = Some w → notified w = true →
         active_threads m !! WorkerThread.task_id w = None.

(** The cleanup timer is stopped while the future [h], which has started,
    is registered under [tid]. *)
Definition held (tid : string) (h : nat) (m : t) : Prop :=
  cleanup_timer m = false
  ∧ active_futures m !! tid = Some h
  ∧ ∃ s, state_of m h = Some s ∧ cannot_cancel s = true.

(** A keyword value of the caller's own: calling it reaches no signal of
    the manager. *)
Definition opaque (v : pyobj) : bool :=
  match v with PyOpaque _ => true | _ => false end.

Definition plain_kwargs (kw : gmap string pyobj) : Prop :=
  ∀ key v, kw !! key = Some v → opaque v = true.




Definition outcome_signals (tid : string) (r : outcome pyobj) : list signal :=
  match r with
  | Return v => succeeded tid v
  | Raise e => failed tid e
  end.






(** What the properties of the signals look at. *)
Definition view (m : t)
    : list ThreadPoolExecutor.work_item * list WorkerThread.t * list signal :=
  (items m, qthreads m, signals m).

(** The moves of one work item: [Future.cancel], and the three steps of
    [_execute_task]. *)
Inductive item_move (m : t) (it : ThreadPoolExecutor.work_item)
    : ThreadPoolExecutor.work_item → list signal → Prop :=
| item_cancel :
    item_move m it
      (ThreadPoolExecutor.with_future
         (Future.cancel (ThreadPoolExecutor.future it)).1 it) []
| item_pick :
    ThreadPoolExecutor.future it = Future.PENDING →
    item_move m it
      (ThreadPoolExecutor.WorkItem (ThreadPoolExecutor.task_id it)
         (ThreadPoolExecutor.func it) (ThreadPoolExecutor.args it)
         (inject (ThreadPoolExecutor.task_id it) (ThreadPoolExecutor.kwargs it))
         Future.RUNNING)
      [task_status (ThreadPoolExecutor.task_id it) "Executando..."]
| item_call i rest :
    ThreadPoolExecutor.future it = Future.RUNNING →
    calls (ThreadPoolExecutor.func it) = i :: rest →
    item_move m it
      (ThreadPoolExecutor.WorkItem (ThreadPoolExecutor.task_id it)
         (Callable rest (ending (ThreadPoolExecutor.func it)))
         (ThreadPoolExecutor.args it) (ThreadPoolExecutor.kwargs it)
         Future.RUNNING)
      (invoke m (ThreadPoolExecutor.kwargs it !! callback_key i) i)
| item_end :
    ThreadPoolExecutor.future it = Future.RUNNING →
    calls (ThreadPoolExecutor.func it) = [] →
    item_move m it
      (ThreadPoolExecutor.with_future
         (Future.FINISHED (ending (ThreadPoolExecutor.func it))) it)
      (outcome_signals (ThreadPoolExecutor.task_id it)
         (ending (ThreadPoolExecutor.func it))).

(** The moves of the worker at address [k]: [cancel], the steps of [run],
    and the delivery of [finished]. *)
Inductive worker_move (m : t) (k : nat) (w : WorkerThread.t)
    : WorkerThread.t → list signal → Prop :=
| worker_cancel :
    worker_move m k w (WorkerThread.cancel w).1 (WorkerThread.cancel w).2
| worker_enter :
    WorkerThread.at_pc w = WorkerThread.AtRun →
    worker_move m k w
      (WorkerThread.Make (WorkerThread.task_id w) (WorkerThread.func w)
         (WorkerThread.args w) (WorkerThread.inject k (WorkerThread.kwargs w))
         (WorkerThread._is_cancelled w) WorkerThread.InFunc)
      [task_status (WorkerThread.task_id w) "Iniciando..."]
| worker_call i rest :
    WorkerThread.at_pc w = WorkerThread.InFunc →
    calls (WorkerThread.func w) = i :: rest →
    worker_move m k w
      (WorkerThread.Make (WorkerThread.task_id w)
         (Callable rest (ending (WorkerThread.func w)))
         (WorkerThread.args w) (WorkerThread.kwargs w)
         (WorkerThread._is_cancelled w) WorkerThread.InFunc)
      (invoke m (WorkerThread.kwargs w !! callback_key i) i)
| worker_end :
    WorkerThread.at_pc w = WorkerThread.InFunc →
    calls (WorkerThread.func w) = [] →
    worker_move m k w (WorkerThread.with_pc WorkerThread.Finished w)
      (match ending (WorkerThread.func w) with
       | Return v =>
           if WorkerThread._is_cancelled w then []
           else succeeded (WorkerThread.task_id w) v
       | Raise e => failed (WorkerThread.task_id w) e
       end)
| worker_notify :
    WorkerThread.at_pc w = WorkerThread.Finished →
    worker_move m k w (WorkerThread.with_pc WorkerThread.FinishedNotified w) [].

(** Every operation of the manager is made of these moves. *)
Inductive micro (m m' : t) : Prop :=
| micro_same :
    view m' = view m → micro m m'
| micro_item h it it' ss :
    items m !! h = Some it → item_move m it it' ss →
    view m' = (<[h := it']> (items m), qthreads m, (signals m ++ ss)%list) →
    micro m m'
| micro_worker k w w' ss :
    qthreads m !! k = Some w → worker_move m k w w' ss →
    view m' = (items m, <[k := w']> (qthreads m), (signals m ++ ss)%list) →
    micro m m'
| micro_add_item it :
    (ThreadPoolExecutor.task_id it ∉ (item_ids m ++ worker_ids m)%list) →
    ThreadPoolExecutor.future it = Future.PENDING →
    plain_kwargs (ThreadPoolExecutor.kwargs it) →
    view m' = ((items m ++ [it])%list, qthreads m,
               (signals m ++ [task_started (ThreadPoolExecutor.task_id it)])%list) →
    micro m m'
| micro_add_worker w :
    (WorkerThread.task_id w ∉ (item_ids m ++ worker_ids m)%list) →
    WorkerThread.at_pc w = WorkerThread.AtRun →
    WorkerThread._is_cancelled w = false →
    plain_kwargs (WorkerThread.kwargs w) →
    view m' = (items m, (qthreads m ++ [w])%list,
               (signals m ++ [task_started (WorkerThread.task_id w)])%list) →
    micro m m'.







(** The work item of [run_to_end] once it has ended. *)
Definition ended_item : ThreadPoolExecutor.work_item :=
  ThreadPoolExecutor.WorkItem id1 quiet_task [PyOpaque 5] (inject id1 ∅)
    (Future.FINISHED (Return (PyOpaque 0))).

(** The worker of [run_cancel_midway] after its [finished] signal. *)
Definition notified_worker : WorkerThread.t :=
  WorkerThread.Make id1 (Callable [] (Return (PyOpaque 1))) []
    (WorkerThread.inject 0 ∅) true WorkerThread.FinishedNotified.


(** * Properties *)

(** ** Task identifiers can be read back *)
Section TaskId_facts.

Lemma append_nil (b : string) : "" +:+ b = b.
Proof. reflexivity. Qed.

Lemma append_cons (x : ascii) (a b : string) :
  String x a +:+ b = String x (a +:+ b).
Proof. reflexivity. Qed.

Lemma string_app_assoc (a b c : string) : (a +:+ b) +:+ c = a +:+ (b +:+ c).
Proof.
  induction a as [|x a IH]; [done |].
  rewrite !append_cons. by rewrite IH.
Qed.

Lemma no_underscore_uint (d : Decimal.uint) :
  no_underscore (NilEmpty.string_of_uint d) = true.
Proof. induction d; simpl; done. Qed.

Lemma no_underscore_py_str_int (n : N) : no_underscore (py_str_int n) = true.
Proof. apply no_underscore_uint. Qed.

Lemma underscore_in_middle (a d : string) :
  no_underscore (a +:+ String "_"%char d) = false.
Proof.
  induction a as [|x a IH]; [done |].
  rewrite append_cons. simpl. by destruct (Ascii.eqb x _).
Qed.

(** A string is cut in one way only at its last underscore. *)
Lemma cut_at_last_underscore (a a' d d' : string) :
  no_underscore d = true → no_underscore d' = true →
  a +:+ String "_"%char d = a' +:+ String "_"%char d' →
  a = a' ∧ d = d'.
Proof.
  intros Hd Hd'. revert a'.
  induction a as [|x a IH]; intros [|y a'] Heq;
    rewrite ?append_nil, ?append_cons in Heq.
  - by injection Heq.
  - injection Heq as _ Heq. subst d.
    by rewrite underscore_in_middle in Hd.
  - injection Heq as _ Heq. subst d'.
    by rewrite underscore_in_middle in Hd'.
  - injection Heq as -> Heq. destruct (IH _ Heq) as [-> ->]. done.
Qed.

Lemma py_str_int_inj (n m : N) : py_str_int n = py_str_int m → n = m.
Proof.
  unfold py_str_int. intros Heq.
  assert (Some (N.to_uint n) = Some (N.to_uint m)) as Hu.
  { rewrite <- !NilEmpty.usu. by rewrite Heq. }
  injection Hu as Hu.
  rewrite <- (DecimalN.Unsigned.of_to n), <- (DecimalN.Unsigned.of_to m).
  by rewrite Hu.
Qed.

(** Every identifier is [prefix ++ "task_" ++ str(c) ++ "_" ++ str(now)]
    for some prefix. *)
Lemma make_id_shape (task_name : option string) (c now : N) :
  ∃ pre, make_id task_name c now
         = (pre +:+ String "_"%char (py_str_int c))
             +:+ String "_"%char (py_str_int now).
Proof.
  destruct task_name as [name|]; simpl.
  - destruct name as [|x name]; simpl.
    + exists "task". done.
    + exists (String x name +:+ "_task"). unfold base_id.
      rewrite !string_app_assoc. done.
  - exists "task". done.
Qed.

(** The counter can be read back from the identifier. *)
Lemma has_counter_functional (tid : string) (c c' : N) :
  has_counter tid c → has_counter tid c' → c = c'.
Proof.
  intros (n1 & t1 & H1) (n2 & t2 & H2).
  destruct (make_id_shape n1 c t1) as [p1 E1].
  destruct (make_id_shape n2 c' t2) as [p2 E2].
  rewrite H1 in H2. rewrite E1, E2 in H2.
  apply cut_at_last_underscore in H2 as [H2 _];
    [| apply no_underscore_py_str_int ..].
  apply cut_at_last_underscore in H2 as [_ H2];
    [| apply no_underscore_py_str_int ..].
  by apply py_str_int_inj.
Qed.

End TaskId_facts.

(** ** What the operations leave alone: the counter and the identifiers of
    the objects created so far *)
Section Frames.

Lemma same_ids_refl m : same_ids m m.
Proof. by repeat split. Qed.

Lemma same_ids_trans m1 m2 m3 :
  same_ids m1 m2 → same_ids m2 m3 → same_ids m1 m3.
Proof. intros (?&?&?) (?&?&?). repeat split; congruence. Qed.

Lemma fmap_insert_same {A B} (f : A → B) (l : list A) (i : nat) (x y : A) :
  l !! i = Some x → f y = f x → f <$> <[i := y]> l = f <$> l.
Proof.
  intros Hl Hf. rewrite list_fmap_insert. apply list_insert_id.
  by rewrite list_lookup_fmap, Hl, Hf.
Qed.

Lemma foldl_same_ids {A} (f : t → A → t) (l : list A) :
  (∀ m a, same_ids m (f m a)) → ∀ m, same_ids m (foldl f m l).
Proof.
  intros Hf. induction l as [|a l IH]; intros m; simpl.
  - apply same_ids_refl.
  - eapply same_ids_trans; [apply Hf | apply IH].
Qed.

Lemma future_cancel_same_ids h m : same_ids m (future_cancel h m).1.
Proof.
  unfold future_cancel.
  destruct (_ !! h) as [it|] eqn:Hit; [| apply same_ids_refl].
  destruct (Future.cancel _) as [s b]. repeat split. simpl.
  unfold item_ids. simpl. by eapply fmap_insert_same.
Qed.

Lemma cancel_task_same_ids m tid : same_ids m (cancel_task m tid).1.
Proof.
  unfold cancel_task.
  destruct (active_threads m !! tid) as [k|].
  - destruct (qthreads m !! k) as [w|] eqn:Hw; [| apply same_ids_refl].
    repeat split. unfold worker_ids. simpl. by eapply fmap_insert_same.
  - destruct (active_futures m !! tid) as [h|]; [| apply same_ids_refl].
    pose proof (future_cancel_same_ids h m) as Hs.
    destruct (future_cancel h m) as [m1 []]; apply Hs.
Qed.

Lemma cancel_all_tasks_same_ids m : same_ids m (cancel_all_tasks m).
Proof.
  unfold cancel_all_tasks.
  set (f := λ (m : t) (task_id : string), (cancel_task m task_id).1).
  eapply same_ids_trans; apply (foldl_same_ids f);
    intros; apply cancel_task_same_ids.
Qed.

Lemma shutdown_same_ids m wait timeout :
  same_ids m (shutdown m wait timeout).1.
Proof.
  unfold shutdown.
  set (m1 := cancel_all_tasks (with_timer false m)).
  assert (same_ids m m1) as H1.
  { eapply same_ids_trans; [| apply cancel_all_tasks_same_ids]. by repeat split. }
  destruct (_ && _ && _).
  - destruct (Scope.callee _ _) as [[]|e]; [| done].
    destruct (futures_wait m1 _) as [dn nd]. simpl.
    eapply same_ids_trans; [apply H1 |].
    eapply same_ids_trans;
      [apply (foldl_same_ids (λ m future, (future_cancel future m).1));
       intros; apply future_cancel_same_ids |].
    by repeat split.
  - simpl. eapply same_ids_trans; [apply H1 | by repeat split].
Qed.

Lemma pool_pick_same_ids h m : same_ids m (pool_pick h m).
Proof.
  unfold pool_pick.
  destruct (_ !! h) as [it|] eqn:Hit; [| apply same_ids_refl].
  destruct (_ && _); [| apply same_ids_refl].
  repeat split. unfold item_ids. simpl. by eapply fmap_insert_same.
Qed.

Lemma pool_step_same_ids h m : same_ids m (pool_step h m).
Proof.
  unfold pool_step.
  destruct (_ !! h) as [it|] eqn:Hit; [| apply same_ids_refl].
  destruct (ThreadPoolExecutor.is_running it); [| apply same_ids_refl].
  destruct (calls _); [destruct (ending _) |];
    repeat split; unfold item_ids; simpl; by eapply fmap_insert_same.
Qed.

Lemma worker_step_same_ids k m : same_ids m (worker_step k m).
Proof.
  unfold worker_step.
  destruct (_ !! k) as [w|] eqn:Hw; [| apply same_ids_refl].
  destruct (WorkerThread.at_pc w); try apply same_ids_refl.
  - repeat split. unfold worker_ids. simpl. by eapply fmap_insert_same.
  - destruct (calls _); [destruct (ending _);
      [destruct (WorkerThread._is_cancelled w) |] |];
      repeat split; unfold worker_ids; simpl; by eapply fmap_insert_same.
Qed.

Lemma thread_finished_same_ids k m : same_ids m (thread_finished k m).
Proof.
  unfold thread_finished, _cleanup_thread.
  destruct (_ !! k) as [w|] eqn:Hw; [| apply same_ids_refl].
  destruct (WorkerThread.at_pc w); try apply same_ids_refl.
  simpl. destruct (active_threads m !! _);
    repeat split; unfold worker_ids; simpl; by eapply fmap_insert_same.
Qed.

(** Every operation but [submit_task] keeps the counter and the
    identifiers. *)
Lemma exec_op_same_ids o m :
  (∀ f a n q kw now, o ≠ Submit f a n q kw now) → same_ids m (exec_op o m).1.
Proof.
  intros Ho. destruct o; simpl.
  - by edestruct Ho.
  - pose proof (cancel_task_same_ids m task_id). by destruct (cancel_task _ _).
  - apply cancel_all_tasks_same_ids.
  - pose proof (shutdown_same_ids m wait timeout). by destruct (shutdown _ _ _).
  - destruct (cleanup_timer m); [by repeat split | apply same_ids_refl].
  - apply thread_finished_same_ids.
  - apply pool_pick_same_ids.
  - apply pool_step_same_ids.
  - apply worker_step_same_ids.
Qed.

(** [submit_task] advances the counter by one, and the identifier it
    returns carries the new value. *)
Lemma submit_task_counter m f a n q kw now :
  _task_counter (submit_task m f a n q kw now).1 = (_task_counter m + 1)%N.
Proof.
  unfold submit_task, next_task_id. destruct q; [done |].
  by destruct (ThreadPoolExecutor.submit _ _ _ _ _) as [[]|].
Qed.

Lemma submit_task_returns m f a n q kw now tid :
  (submit_task m f a n q kw now).2 = Return tid →
  tid = TaskId.make_id n (_task_counter m + 1) now.
Proof.
  unfold submit_task, next_task_id. destruct q; simpl; [congruence |].
  destruct (ThreadPoolExecutor.submit _ _ _ _ _) as [[]|]; simpl; congruence.
Qed.

Lemma exec_op_counter_mono o m :
  (_task_counter m ≤ _task_counter (exec_op o m).1)%N.
Proof.
  destruct o as [f a n q kw now| | | | | | | |].
  2-9: match goal with |- context [exec_op ?o _] =>
         destruct (exec_op_same_ids o m) as [-> _]; [done | lia] end.
  simpl. pose proof (submit_task_counter m f a n q kw now).
  destruct (submit_task _ _ _ _ _ _ _). simpl in *. lia.
Qed.

Lemma run_counter_mono ops m : (_task_counter m ≤ _task_counter (run ops m).1)%N.
Proof.
  revert m. induction ops as [|o ops IH]; intros m; simpl; [lia |].
  pose proof (exec_op_counter_mono o m) as H1.
  destruct (exec_op o m) as [m1 r]. specialize (IH m1).
  destruct (run ops m1) as [m2 rs]. simpl in *. lia.
Qed.

End Frames.

(** ** Counting the results emitted for a task *)
Section Completions.

Lemma completions_app tid ss1 ss2 :
  completions tid (ss1 ++ ss2) = completions tid ss1 + completions tid ss2.
Proof. unfold completions. by rewrite filter_app, length_app. Qed.

Lemma completions_nil tid : completions tid [] = 0.
Proof. done. Qed.

Lemma paired_nil : paired [].
Proof. intros i r H. by rewrite lookup_nil in H. Qed.

Lemma paired_app ss1 ss2 : paired ss1 → paired ss2 → paired (ss1 ++ ss2).
Proof.
  intros H1 H2 i r Hi. apply lookup_app_Some in Hi as [Hi | [Hle Hi]].
  - destruct (H1 _ _ Hi) as [s Hs]. exists s. by apply lookup_app_l_Some.
  - destruct (H2 _ _ Hi) as [s Hs]. exists s.
    rewrite lookup_app_r by lia.
    by replace (S i - length ss1) with (S (i - length ss1)) by lia.
Qed.

Lemma paired_no_completion ss :
  (∀ s, s ∈ ss → completion_of s = None) → paired ss.
Proof.
  intros H i r Hi. apply list_elem_of_lookup_2 in Hi. by apply H in Hi.
Qed.

Lemma completions_none tid ss :
  (∀ s, s ∈ ss → completion_of s = None) → completions tid ss = 0.
Proof.
  intros H. unfold completions.
  induction ss as [|s ss IH]; [done |].
  rewrite filter_cons. destruct (decide _) as [Hs|_].
  - rewrite H in Hs; [done | left].
  - apply IH. intros s' Hs'. apply H. by right.
Qed.

Lemma completions_succeeded tid tid' v :
  completions tid (ThreadManager.succeeded tid' v)
  = if decide (tid = tid') then 1 else 0.
Proof.
  unfold completions, ThreadManager.succeeded.
  rewrite filter_cons. simpl.
  destruct (decide (Some tid' = Some tid)) as [Heq|Hne];
    destruct (decide (tid = tid')); try done; congruence.
Qed.

Lemma completions_failed tid tid' e :
  completions tid (ThreadManager.failed tid' e)
  = if decide (tid = tid') then 1 else 0.
Proof.
  unfold completions, ThreadManager.failed.
  rewrite filter_cons. simpl.
  destruct (decide (Some tid' = Some tid)) as [Heq|Hne];
    destruct (decide (tid = tid')); try done; congruence.
Qed.

Lemma paired_succeeded tid v : paired (ThreadManager.succeeded tid v).
Proof. intros [|[|i]] r Hi; simplify_eq/=. by eexists. Qed.

Lemma paired_failed tid e : paired (ThreadManager.failed tid e).
Proof. intros [|[|i]] r Hi; simplify_eq/=. by eexists. Qed.

Lemma invoke_no_completion m cb i s :
  s ∈ ThreadManager.invoke m cb i → completion_of s = None.
Proof.
  unfold ThreadManager.invoke. intros Hs.
  repeat (case_match; simplify_eq/=);
    try (by apply elem_of_nil in Hs);
    apply list_elem_of_singleton in Hs; by subst.
Qed.

End Completions.
(** ** The invariant of the manager *)
Section Invariant.

Lemma emit_nil m : emit [] m = m.
Proof. destruct m. unfold emit. simpl. by rewrite app_nil_r. Qed.

Lemma bounded_mono m m' tid :
  (_task_counter m ≤ _task_counter m')%N → bounded m tid → bounded m' tid.
Proof. intros Hle (c & Hc & Hb). exists c. split; [done | lia]. Qed.

Lemma item_id_elem m h it :
  items m !! h = Some it → ThreadPoolExecutor.task_id it ∈ item_ids m.
Proof.
  intros H. unfold item_ids. apply list_elem_of_fmap.
  exists it. split; [done |]. by eapply list_elem_of_lookup_2.
Qed.

Lemma worker_id_elem m k w :
  qthreads m !! k = Some w → WorkerThread.task_id w ∈ worker_ids m.
Proof.
  intros H. unfold worker_ids. apply list_elem_of_fmap.
  exists w. split; [done |]. by eapply list_elem_of_lookup_2.
Qed.

(** Two objects with the same identifier are the same object. *)
Lemma item_id_inj m h h' it it' :
  Inv m → items m !! h = Some it → items m !! h' = Some it' →
  ThreadPoolExecutor.task_id it = ThreadPoolExecutor.task_id it' → h = h'.
Proof.
  intros HI H1 H2 Heq.
  pose proof (inv_nodup _ HI) as Hnd. apply NoDup_app in Hnd as (Hnd & _ & _).
  apply (NoDup_lookup _ h h' (ThreadPoolExecutor.task_id it) Hnd);
    unfold item_ids; rewrite list_lookup_fmap;
    [rewrite H1 | rewrite H2]; simpl; congruence.
Qed.

Lemma worker_id_inj m k k' w w' :
  Inv m → qthreads m !! k = Some w → qthreads m !! k' = Some w' →
  WorkerThread.task_id w = WorkerThread.task_id w' → k = k'.
Proof.
  intros HI H1 H2 Heq.
  pose proof (inv_nodup _ HI) as Hnd. apply NoDup_app in Hnd as (_ & _ & Hnd).
  apply (NoDup_lookup _ k k' (WorkerThread.task_id w) Hnd);
    unfold worker_ids; rewrite list_lookup_fmap;
    [rewrite H1 | rewrite H2]; simpl; congruence.
Qed.

Lemma item_worker_id_ne m h k it w :
  Inv m → items m !! h = Some it → qthreads m !! k = Some w →
  ThreadPoolExecutor.task_id it ≠ WorkerThread.task_id w.
Proof.
  intros HI H1 H2 Heq.
  pose proof (inv_nodup _ HI) as Hnd. apply NoDup_app in Hnd as (_ & Hd & _).
  apply (Hd (ThreadPoolExecutor.task_id it)); [by eapply item_id_elem |].
  rewrite Heq. by eapply worker_id_elem.
Qed.

End Invariant.

(** ** How the invariant is kept: one object changes at a time *)
Section Invariant_updates.

(** A work item changes and signals are emitted. *)
Lemma Inv_item_update m h it it' ss :
  Inv m →
  items m !! h = Some it →
  ThreadPoolExecutor.task_id it' = ThreadPoolExecutor.task_id it →
  (Future.done (ThreadPoolExecutor.future it) = true →
   Future.done (ThreadPoolExecutor.future it') = true) →
  (∀ tid, tid ≠ ThreadPoolExecutor.task_id it → completions tid ss = 0) →
  completions (ThreadPoolExecutor.task_id it) ss
    + results_of (ThreadPoolExecutor.future it)
  = results_of (ThreadPoolExecutor.future it') →
  paired ss →
  Inv (emit ss (with_pool (ThreadPoolExecutor.set_item h it' (thread_pool m)) m)).
Proof.
  intros HI Hit Hid Hdone Hother Hown Hpair.
  set (m' := emit ss _).
  assert (item_ids m' = item_ids m) as Eids.
  { unfold item_ids. simpl. by eapply fmap_insert_same. }
  assert (∀ h0 it0, items m' !! h0 = Some it0 →
            (h0 = h ∧ it0 = it') ∨ (h0 ≠ h ∧ items m !! h0 = Some it0)) as Hlk.
  { intros h0 it0 H0. simpl in H0.
    apply list_lookup_insert_Some in H0 as [(-> & -> & _)|[? ?]]; eauto. }
  assert (∀ h0 it0, h0 ≠ h → items m !! h0 = Some it0 →
            completions (ThreadPoolExecutor.task_id it0) ss = 0) as Hss_item.
  { intros h0 it0 Hne H0. apply Hother. intros Heq.
    apply Hne. by eapply (item_id_inj m h0 h). }
  assert (∀ k w, qthreads m !! k = Some w →
            completions (WorkerThread.task_id w) ss = 0) as Hss_worker.
  { intros k w Hw. apply Hother. intros Heq.
    by eapply (item_worker_id_ne m h k it w). }
  destruct HI as [I1 I2 I3 I4 I5 I6 I7 I8 I9 I10 I11 I12 I13].
  split; simpl; fold (items m).
  - rewrite Eids. apply I1.
  - apply I2.
  - rewrite Eids. apply I3.
  - apply I4.
  - intros tid h0 H0. destruct (I5 _ _ H0) as (it0 & Hit0 & Hid0).
    destruct (decide (h0 = h)) as [->|Hne].
    + exists it'. split; [apply list_lookup_insert_eq; by eapply lookup_lt_Some |].
      congruence.
    + exists it0. by rewrite list_lookup_insert_ne.
  - apply I6.
  - intros h0 it0 H0 Hnd. destruct (Hlk _ _ H0) as [[-> ->]|[Hne H0']].
    + rewrite Hid. apply I7; [done |].
      destruct (Future.done (ThreadPoolExecutor.future it)) eqn:Hd; [| done].
      rewrite Hdone in Hnd; done.
    + by apply I7.
  - by apply paired_app.
  - intros tid Hn1 Hn2. rewrite completions_app.
    rewrite Eids in Hn1. rewrite I9 by done.
    rewrite Hother; [done |]. intros ->. apply Hn1. by eapply item_id_elem.
  - intros h0 it0 H0. rewrite completions_app.
    destruct (Hlk _ _ H0) as [[-> ->]|[Hne H0']].
    + rewrite Hid. rewrite (I10 _ _ Hit). lia.
    + rewrite (I10 _ _ H0'), (Hss_item _ _ Hne H0'). lia.
  - intros k w Hw Hl. rewrite completions_app, (I11 _ _ Hw Hl), (Hss_worker _ _ Hw). done.
  - intros k w Hw. rewrite completions_app, (Hss_worker _ _ Hw).
    pose proof (I12 _ _ Hw). lia.
  - intros k w Hw Hl Hc. rewrite completions_app, (Hss_worker _ _ Hw).
    rewrite (I13 _ _ Hw Hl Hc). done.
Qed.

(** A worker changes and signals are emitted. *)
Lemma Inv_worker_update m k w w' ss :
  Inv m →
  qthreads m !! k = Some w →
  WorkerThread.task_id w' = WorkerThread.task_id w →
  ending (WorkerThread.func w') = ending (WorkerThread.func w) →
  (WorkerThread.is_live w' = true → WorkerThread.is_live w = true) →
  (WorkerThread._is_cancelled w = true → WorkerThread._is_cancelled w' = true) →
  (∀ tid, tid ≠ WorkerThread.task_id w → completions tid ss = 0) →
  (WorkerThread.is_live w' = true → completions (WorkerThread.task_id w) ss = 0) →
  (WorkerThread.is_live w = false → completions (WorkerThread.task_id w) ss = 0) →
  (completions (WorkerThread.task_id w) ss ≤ 1)%nat →
  (WorkerThread.is_live w = true → WorkerThread.is_live w' = false →
   raises (WorkerThread.func w') ∨ WorkerThread._is_cancelled w' = false →
   completions (WorkerThread.task_id w) ss = 1) →
  paired ss →
  Inv (emit ss (with_qthreads (<[k := w']> (qthreads m)) m)).
Proof.
  intros HI Hw Hid Hend Hlive Hflag Hother Hrun Hdead Hle Hfin Hpair.
  set (m' := emit ss _).
  assert (worker_ids m' = worker_ids m) as Eids.
  { unfold worker_ids. simpl. by eapply fmap_insert_same. }
  assert (∀ k0 w0, qthreads m' !! k0 = Some w0 →
            (k0 = k ∧ w0 = w') ∨ (k0 ≠ k ∧ qthreads m !! k0 = Some w0)) as Hlk.
  { intros k0 w0 H0. simpl in H0.
    apply list_lookup_insert_Some in H0 as [(-> & -> & _)|[? ?]]; eauto. }
  assert (∀ k0 w0, k0 ≠ k → qthreads m !! k0 = Some w0 →
            completions (WorkerThread.task_id w0) ss = 0) as Hss_worker.
  { intros k0 w0 Hne H0. apply Hother. intros Heq.
    apply Hne. by eapply (worker_id_inj m k0 k). }
  assert (∀ h it, items m !! h = Some it →
            completions (ThreadPoolExecutor.task_id it) ss = 0) as Hss_item.
  { intros h it Hit. apply Hother.
    by eapply (item_worker_id_ne m h k it w). }
  destruct HI as [I1 I2 I3 I4 I5 I6 I7 I8 I9 I10 I11 I12 I13].
  split; simpl.
  - apply I1.
  - rewrite Eids. apply I2.
  - rewrite Eids. apply I3.
  - intros tid k0 H0. destruct (I4 _ _ H0) as (w0 & Hw0 & Hid0).
    destruct (decide (k0 = k)) as [->|Hne].
    + exists w'. split; [apply list_lookup_insert_eq; by eapply lookup_lt_Some |].
      congruence.
    + exists w0. by rewrite list_lookup_insert_ne.
  - apply I5.
  - intros k0 w0 H0 Hl. destruct (Hlk _ _ H0) as [[-> ->]|[Hne H0']].
    + rewrite Hid. apply I6; auto.
    + by apply I6.
  - apply I7.
  - by apply paired_app.
  - intros tid Hn1 Hn2. rewrite completions_app.
    rewrite Eids in Hn2. rewrite I9 by done.
    rewrite Hother; [done |]. intros ->. apply Hn2. by eapply worker_id_elem.
  - intros h it Hit. rewrite completions_app, (I10 _ _ Hit), (Hss_item _ _ Hit). lia.
  - intros k0 w0 H0 Hl. rewrite completions_app.
    destruct (Hlk _ _ H0) as [[-> ->]|[Hne H0']].
    + rewrite Hid, (I11 _ _ Hw (Hlive Hl)), (Hrun Hl). done.
    + rewrite (I11 _ _ H0' Hl), (Hss_worker _ _ Hne H0'). done.
  - intros k0 w0 H0. rewrite completions_app.
    destruct (Hlk _ _ H0) as [[-> ->]|[Hne H0']].
    + rewrite Hid. destruct (WorkerThread.is_live w) eqn:Hl.
      * rewrite (I11 _ _ Hw Hl). lia.
      * rewrite (Hdead eq_refl). pose proof (I12 _ _ Hw). lia.
    + rewrite (Hss_worker _ _ Hne H0'). pose proof (I12 _ _ H0'). lia.
  - intros k0 w0 H0 Hl Hc. rewrite completions_app.
    destruct (Hlk _ _ H0) as [[-> ->]|[Hne H0']].
    + rewrite Hid. destruct (WorkerThread.is_live w) eqn:Hl0.
      * rewrite (I11 _ _ Hw Hl0), (Hfin eq_refl Hl Hc). done.
      * rewrite (Hdead eq_refl). rewrite (I13 _ _ Hw Hl0); [done |].
        destruct Hc as [[e He]|Hc]; [left; exists e; congruence |].
        right. destruct (WorkerThread._is_cancelled w); [| done].
        rewrite Hflag in Hc; done.
    + rewrite (Hss_worker _ _ Hne H0'), (I13 _ _ H0' Hl Hc). done.
Qed.

Lemma Inv_threads_delete m tid :
  Inv m →
  (∀ k w, qthreads m !! k = Some w → WorkerThread.task_id w = tid →
          WorkerThread.is_live w = false) →
  Inv (with_threads (delete tid (active_threads m)) m).
Proof.
  intros [I1 I2 I3 I4 I5 I6 I7 I8 I9 I10 I11 I12 I13] Hdead.
  split; simpl; try done.
  - intros tid' k H. apply lookup_delete_Some in H as [_ H]. by apply I4.
  - intros k w Hw Hl. rewrite lookup_delete_ne; [by apply I6 |].
    intros Heq. subst tid. rewrite (Hdead _ _ Hw eq_refl) in Hl. done.
Qed.

Lemma Inv_futures_shrink m fs :
  Inv m →
  (∀ tid h, fs !! tid = Some h → active_futures m !! tid = Some h) →
  (∀ tid h, active_futures m !! tid = Some h → fs !! tid = None →
            future_done m h = true) →
  Inv (with_futures fs m).
Proof.
  intros [I1 I2 I3 I4 I5 I6 I7 I8 I9 I10 I11 I12 I13] Hsub Hgone.
  split; simpl; try done.
  - intros tid h H. apply I5. by apply Hsub.
  - intros h it Hit Hnd. pose proof (I7 _ _ Hit Hnd) as Hreg.
    destruct (fs !! ThreadPoolExecutor.task_id it) as [h'|] eqn:Hfs.
    + apply Hsub in Hfs. congruence.
    + specialize (Hgone _ _ Hreg Hfs). unfold future_done in Hgone.
      rewrite Hit in Hgone. congruence.
Qed.

Lemma Inv_with_timer m b : Inv m → Inv (with_timer b m).
Proof. intros []. by split. Qed.

Lemma Inv_pool_shutdown m :
  Inv m → Inv (with_pool (ThreadPoolExecutor.shutdown (thread_pool m)) m).
Proof. intros []. by split. Qed.

End Invariant_updates.

(** ** Every operation but [submit_task] keeps the invariant *)
Section Invariant_steps.

Local Arguments completions : simpl never.

Lemma completions_status tid tid' s : completions tid [task_status tid' s] = 0.
Proof.
  apply completions_none. intros x Hx.
  apply list_elem_of_singleton in Hx. by subst.
Qed.

Lemma completions_invoke tid m cb i : completions tid (invoke m cb i) = 0.
Proof. apply completions_none. intros s. apply invoke_no_completion. Qed.

Lemma paired_status tid s : paired [task_status tid s].
Proof.
  apply paired_no_completion. intros x Hx.
  apply list_elem_of_singleton in Hx. by subst.
Qed.

Lemma paired_invoke m cb i : paired (invoke m cb i).
Proof. apply paired_no_completion. intros s. apply invoke_no_completion. Qed.

Ltac emitted :=
  intros;
  rewrite ?completions_status, ?completions_invoke, ?completions_succeeded,
    ?completions_failed, ?completions_nil;
  try case_decide; simpl; try done; try lia;
  first [ apply paired_status | apply paired_invoke | apply paired_nil
        | apply paired_succeeded | apply paired_failed | idtac ].

Lemma Inv_pool_pick h m : Inv m → Inv (pool_pick h m).
Proof.
  intros HI. unfold pool_pick.
  destruct (items m !! h) as [it|] eqn:Hit; [| done].
  destruct (ThreadPoolExecutor.is_pending it) eqn:Hp; [| done].
  destruct (ThreadPoolExecutor.may_pick _ _); [| done].
  unfold ThreadPoolExecutor.is_pending in Hp.
  destruct (ThreadPoolExecutor.future it) eqn:Hf; try done.
  apply (Inv_item_update _ _ it); try done; rewrite ?Hf; emitted.
Qed.

Lemma Inv_pool_step h m : Inv m → Inv (pool_step h m).
Proof.
  intros HI. unfold pool_step.
  destruct (items m !! h) as [it|] eqn:Hit; [| done].
  destruct (ThreadPoolExecutor.is_running it) eqn:Hr; [| done].
  unfold ThreadPoolExecutor.is_running in Hr.
  destruct (ThreadPoolExecutor.future it) eqn:Hf; try done.
  destruct (calls _) as [|i rest]; [destruct (ending _) as [v|e] |];
    apply (Inv_item_update _ _ it); try done; rewrite ?Hf; emitted.
Qed.

Lemma Inv_worker_step k m : Inv m → Inv (worker_step k m).
Proof.
  intros HI. unfold worker_step.
  destruct (qthreads m !! k) as [w|] eqn:Hw; [| done].
  destruct (WorkerThread.at_pc w) eqn:Hpc; try done.
  - apply (Inv_worker_update _ _ w); try done;
      unfold WorkerThread.is_live; rewrite ?Hpc; emitted.
  - destruct (calls _) as [|i rest].
    + destruct (ending (WorkerThread.func w)) as [v|e] eqn:He.
      * destruct (WorkerThread._is_cancelled w) eqn:Hc.
        -- rewrite <- emit_nil.
           apply (Inv_worker_update _ _ w); try done;
             unfold WorkerThread.is_live; rewrite ?Hpc; emitted.
           match goal with H : _ ∨ _ |- _ => destruct H as [[e He']|?] end;
             simpl in *; congruence.
        -- apply (Inv_worker_update _ _ w); try done;
             unfold WorkerThread.is_live; rewrite ?Hpc; emitted.
      * apply (Inv_worker_update _ _ w); try done;
          unfold WorkerThread.is_live; rewrite ?Hpc; emitted.
    + apply (Inv_worker_update _ _ w); try done;
        unfold WorkerThread.is_live; rewrite ?Hpc; emitted.
Qed.

Lemma Inv_thread_finished k m : Inv m → Inv (thread_finished k m).
Proof.
  intros HI. unfold thread_finished.
  destruct (qthreads m !! k) as [w|] eqn:Hw; [| done].
  destruct (WorkerThread.at_pc w) eqn:Hpc; try done.
  set (w' := WorkerThread.with_pc _ w).
  assert (Inv (with_qthreads (<[k := w']> (qthreads m)) m)) as HI'.
  { rewrite <- emit_nil.
    apply (Inv_worker_update _ _ w); try done;
      unfold WorkerThread.is_live; simpl; rewrite ?Hpc; emitted. }
  unfold _cleanup_thread. simpl.
  destruct (active_threads m !! WorkerThread.task_id w); [| done].
  apply (Inv_threads_delete _ _ HI'). simpl.
  intros k0 w0 H0 Hid.
  assert (k0 = k) as ->.
  { eapply (worker_id_inj _ k0 k w0 w' HI'); simpl; [done | | done].
    apply list_lookup_insert_eq. by eapply lookup_lt_Some. }
  rewrite list_lookup_insert_eq in H0 by (by eapply lookup_lt_Some).
  by simplify_eq.
Qed.

Lemma future_cancel_spec h m :
  active_futures (future_cancel h m).1 = active_futures m
  ∧ ((future_cancel h m).2 = true → future_done (future_cancel h m).1 h = true).
Proof.
  unfold future_cancel.
  destruct (items m !! h) as [it|] eqn:Hit; [| done].
  destruct (Future.cancel _) as [s b] eqn:Hc. simpl. split; [done |].
  intros ->. unfold future_done. simpl.
  rewrite list_lookup_insert_eq by (by eapply lookup_lt_Some). simpl.
  by destruct (ThreadPoolExecutor.future it); simplify_eq/=.
Qed.

Lemma Inv_future_cancel h m : Inv m → Inv (future_cancel h m).1.
Proof.
  intros HI. unfold future_cancel.
  destruct (items m !! h) as [it|] eqn:Hit; [| done].
  destruct (Future.cancel _) as [s b] eqn:Hc. simpl.
  rewrite <- emit_nil.
  apply (Inv_item_update _ _ it); try done; emitted;
    destruct (ThreadPoolExecutor.future it); by simplify_eq/=.
Qed.

Lemma Inv_cancel_task m tid : Inv m → Inv (cancel_task m tid).1.
Proof.
  intros HI. unfold cancel_task.
  destruct (active_threads m !! tid) as [k|].
  - destruct (qthreads m !! k) as [w|] eqn:Hw; [| done]. simpl.
    apply (Inv_worker_update _ _ w); try done; emitted.
    unfold WorkerThread.is_live in *; simpl in *; congruence.
  - destruct (active_futures m !! tid) as [h|] eqn:Hf; [| done].
    pose proof (Inv_future_cancel h m HI) as HI1.
    destruct (future_cancel_spec h m) as [Ea Hd].
    destruct (future_cancel h m) as [m1 b]. simpl in *.
    destruct b; [| done]. simpl.
    apply Inv_futures_shrink; [done | |].
    + intros tid' h' H. by apply lookup_delete_Some in H as [_ H].
    + intros tid' h' H Hn. apply lookup_delete_None in Hn as [->|Hn];
        [| congruence].
      rewrite Ea in H. simplify_eq. by apply Hd.
Qed.

Lemma Inv_foldl {A} (f : t → A → t) (l : list A) :
  (∀ m a, Inv m → Inv (f m a)) → ∀ m, Inv m → Inv (foldl f m l).
Proof.
  intros Hf. induction l as [|a l IH]; intros m HI; simpl; [done |].
  apply IH. by apply Hf.
Qed.

Lemma Inv_cancel_all_tasks m : Inv m → Inv (cancel_all_tasks m).
Proof.
  intros HI. unfold cancel_all_tasks.
  set (f := λ (m : t) (task_id : string), (cancel_task m task_id).1).
  apply (Inv_foldl f); [intros; by apply Inv_cancel_task |].
  apply (Inv_foldl f); [intros; by apply Inv_cancel_task | done].
Qed.

Lemma lookup_foldl_delete (fs : gmap string nat) (ks : list string) (k : string) :
  foldl (λ fs task_id, delete task_id fs) fs ks !! k
  = if decide (k ∈ ks) then None else fs !! k.
Proof.
  revert fs. induction ks as [|a ks IH]; intros fs; cbn [foldl].
  - destruct (decide (k ∈ [])) as [H|_]; [by apply elem_of_nil in H | done].
  - rewrite IH. destruct (decide (k ∈ ks)) as [Hin|Hnin].
    + rewrite decide_True; [done | by right].
    + destruct (decide (k = a)) as [->|Hne].
      * rewrite decide_True by left. apply lookup_delete_eq.
      * rewrite decide_False; [by apply lookup_delete_ne |].
        intros Hin. apply elem_of_cons in Hin as [?|?]; done.
Qed.

Lemma Inv_cleanup_finished_tasks m : Inv m → Inv (_cleanup_finished_tasks m).
Proof.
  intros HI. unfold _cleanup_finished_tasks.
  apply Inv_futures_shrink; [done | |].
  - intros tid h. rewrite lookup_foldl_delete. by case_decide.
  - intros tid h Hf. rewrite lookup_foldl_delete.
    case_decide as Hin; [| congruence]. intros _.
    apply list_elem_of_fmap in Hin as ([tid' h'] & -> & Hin).
    apply list_elem_of_filter in Hin as [Hd Hin].
    apply elem_of_map_to_list in Hin. simpl in *. congruence.
Qed.

Lemma Inv_shutdown m wait timeout : Inv m → Inv (shutdown m wait timeout).1.
Proof.
  intros HI. unfold shutdown.
  set (m1 := cancel_all_tasks (with_timer false m)).
  assert (Inv m1) as H1 by (by apply Inv_cancel_all_tasks, Inv_with_timer).
  destruct (_ && _ && _).
  - destruct (Scope.callee _ _) as [[]|e]; [| done].
    destruct (futures_wait m1 _) as [dn nd]. simpl.
    apply Inv_pool_shutdown.
    apply (Inv_foldl (λ m future, (future_cancel future m).1));
      [intros; by apply Inv_future_cancel | done].
  - simpl. by apply Inv_pool_shutdown.
Qed.

End Invariant_steps.
(** ** [submit_task] keeps the invariant: the new identifier is new *)
Section Invariant_submit.

Local Arguments completions : simpl never.

Lemma completions_started tid tid' : completions tid [task_started tid'] = 0.
Proof.
  apply completions_none. intros x Hx.
  apply list_elem_of_singleton in Hx. by subst.
Qed.

Lemma paired_started tid : paired [task_started tid].
Proof.
  apply paired_no_completion. intros x Hx.
  apply list_elem_of_singleton in Hx. by subst.
Qed.

(** An identifier made from the next counter value is new. *)
Lemma next_id_fresh m n now :
  Inv m →
  (TaskId.make_id n (_task_counter m + 1) now ∉ item_ids m)
  ∧ (TaskId.make_id n (_task_counter m + 1) now ∉ worker_ids m).
Proof.
  intros HI. set (tid := TaskId.make_id _ _ _).
  assert (bounded m tid → False) as Hno.
  { intros (c & Hc & Hle).
    assert (TaskId.has_counter tid (_task_counter m + 1)) as Hc'
      by (by exists n, now).
    pose proof (has_counter_functional _ _ _ Hc Hc'). lia. }
  split; intros Hin; apply Hno;
    [by apply (inv_item_ids _ HI) | by apply (inv_worker_ids _ HI)].
Qed.

Lemma Inv_with_counter m c :
  Inv m → (_task_counter m ≤ c)%N → Inv (with_counter c m).
Proof.
  intros [I1 I2 I3 I4 I5 I6 I7 I8 I9 I10 I11 I12 I13] Hle.
  split; try done.
  - intros tid Hin. eapply bounded_mono; [| by apply I1]. done.
  - intros tid Hin. eapply bounded_mono; [| by apply I2]. done.
Qed.

Lemma Inv_add_worker m w :
  Inv m →
  bounded m (WorkerThread.task_id w) →
  WorkerThread.task_id w ∉ item_ids m →
  WorkerThread.task_id w ∉ worker_ids m →
  WorkerThread.is_live w = true →
  Inv (emit [task_started (WorkerThread.task_id w)]
         (with_threads (<[WorkerThread.task_id w := length (qthreads m)]>
                          (active_threads m))
            (with_qthreads (qthreads m ++ [w])%list m))).
Proof.
  intros HI Hb Hf1 Hf2 Hl.
  set (tid := WorkerThread.task_id w) in *.
  assert (∀ k w0, qthreads m !! k = Some w0 → WorkerThread.task_id w0 ≠ tid)
    as Hold.
  { intros k w0 H0 Heq. apply Hf2. rewrite <- Heq. by eapply worker_id_elem. }
  assert (∀ k w0, (qthreads m ++ [w])%list !! k = Some w0 →
            qthreads m !! k = Some w0 ∨ (k = length (qthreads m) ∧ w0 = w))
    as Hlk.
  { intros k w0 H0. apply lookup_app_Some in H0 as [?|[Hle H0]]; [by left |].
    right. apply list_lookup_singleton_Some in H0 as [? ->]. split; [lia | done]. }
  destruct HI as [I1 I2 I3 I4 I5 I6 I7 I8 I9 I10 I11 I12 I13].
  assert (completions tid (signals m) = 0) as Hzero by (by apply I9).
  split; simpl; unfold worker_ids; simpl; rewrite ?fmap_app; simpl;
    fold (worker_ids m).
  - apply I1.
  - intros tid' Hin. apply elem_of_app in Hin as [Hin|Hin]; [by apply I2 |].
    apply list_elem_of_singleton in Hin. by subst.
  - rewrite app_assoc. apply NoDup_app. split; [done |]. split.
    + intros x Hx Hx'. apply list_elem_of_singleton in Hx'. subst x.
      apply elem_of_app in Hx as [?|?]; done.
    + apply NoDup_singleton.
  - intros tid' k H. apply lookup_insert_Some in H as [[<- <-]|[Hne H]].
    + exists w. split; [| done]. by apply list_lookup_middle.
    + destruct (I4 _ _ H) as (w0 & H0 & Hid). exists w0.
      split; [| done]. by apply lookup_app_l_Some.
  - apply I5.
  - intros k w0 H0 Hl0. destruct (Hlk _ _ H0) as [H0'|[-> ->]].
    + rewrite lookup_insert_ne; [by apply I6 |].
      intros Heq. by eapply Hold.
    + apply lookup_insert_eq.
  - apply I7.
  - apply paired_app; [done | apply paired_started].
  - intros tid' Hn1 Hn2. rewrite completions_app, completions_started.
    rewrite I9; [done | done |]. intros Hin. apply Hn2.
    apply elem_of_app. by left.
  - intros h it Hit. rewrite completions_app, completions_started.
    rewrite (I10 _ _ Hit). lia.
  - intros k w0 H0 Hl0. rewrite completions_app, completions_started.
    destruct (Hlk _ _ H0) as [H0'|[-> ->]].
    + by rewrite (I11 _ _ H0' Hl0).
    + fold tid. by rewrite Hzero.
  - intros k w0 H0. rewrite completions_app, completions_started.
    destruct (Hlk _ _ H0) as [H0'|[-> ->]].
    + pose proof (I12 _ _ H0'). lia.
    + fold tid. rewrite Hzero. lia.
  - intros k w0 H0 Hl0 Hc. rewrite completions_app, completions_started.
    destruct (Hlk _ _ H0) as [H0'|[-> ->]].
    + by rewrite (I13 _ _ H0' Hl0 Hc).
    + congruence.
Qed.

Lemma Inv_add_item m it :
  Inv m →
  bounded m (ThreadPoolExecutor.task_id it) →
  ThreadPoolExecutor.task_id it ∉ item_ids m →
  ThreadPoolExecutor.task_id it ∉ worker_ids m →
  ThreadPoolExecutor.future it = Future.PENDING →
  Inv (emit [task_started (ThreadPoolExecutor.task_id it)]
         (with_futures (<[ThreadPoolExecutor.task_id it := length (items m)]>
                          (active_futures m))
            (with_pool
               (ThreadPoolExecutor.Make
                  (ThreadPoolExecutor._max_workers (thread_pool m))
                  (items m ++ [it])%list false) m))).
Proof.
  intros HI Hb Hf1 Hf2 Hp.
  set (tid := ThreadPoolExecutor.task_id it) in *.
  assert (∀ h it0, items m !! h = Some it0 →
            ThreadPoolExecutor.task_id it0 ≠ tid) as Hold.
  { intros h it0 H0 Heq. apply Hf1. rewrite <- Heq. by eapply item_id_elem. }
  assert (∀ h it0, (items m ++ [it])%list !! h = Some it0 →
            items m !! h = Some it0 ∨ (h = length (items m) ∧ it0 = it))
    as Hlk.
  { intros h it0 H0. apply lookup_app_Some in H0 as [?|[Hle H0]]; [by left |].
    right. apply list_lookup_singleton_Some in H0 as [? ->]. split; [lia | done]. }
  destruct HI as [I1 I2 I3 I4 I5 I6 I7 I8 I9 I10 I11 I12 I13].
  assert (completions tid (signals m) = 0) as Hzero by (by apply I9).
  split; simpl; unfold item_ids; simpl; rewrite ?fmap_app; simpl;
    fold (item_ids m).
  - intros tid' Hin. apply elem_of_app in Hin as [Hin|Hin]; [by apply I1 |].
    apply list_elem_of_singleton in Hin. by subst.
  - apply I2.
  - apply NoDup_app in I3 as (N1 & N2 & N3).
    apply NoDup_app. split; [| split; [| done]].
    + apply NoDup_app. split; [done |]. split; [| apply NoDup_singleton].
      intros x Hx Hx'. apply list_elem_of_singleton in Hx'. by subst x.
    + intros x Hx. apply elem_of_app in Hx as [Hx|Hx]; [by apply N2 |].
      apply list_elem_of_singleton in Hx. by subst x.
  - apply I4.
  - intros tid' h H. apply lookup_insert_Some in H as [[<- <-]|[Hne H]].
    + exists it. split; [| done]. by apply list_lookup_middle.
    + destruct (I5 _ _ H) as (it0 & H0 & Hid). exists it0.
      split; [| done]. by apply lookup_app_l_Some.
  - apply I6.
  - intros h it0 H0 Hl0. destruct (Hlk _ _ H0) as [H0'|[-> ->]].
    + rewrite lookup_insert_ne; [by apply I7 |].
      intros Heq. by eapply Hold.
    + apply lookup_insert_eq.
  - apply paired_app; [done | apply paired_started].
  - intros tid' Hn1 Hn2. rewrite completions_app, completions_started.
    rewrite I9; [done | | done]. intros Hin. apply Hn1.
    apply elem_of_app. by left.
  - intros h it0 H0. rewrite completions_app, completions_started.
    destruct (Hlk _ _ H0) as [H0'|[-> ->]].
    + rewrite (I10 _ _ H0'). lia.
    + fold tid. rewrite Hzero, Hp. done.
  - intros k w0 H0 Hl0. rewrite completions_app, completions_started.
    by rewrite (I11 _ _ H0 Hl0).
  - intros k w0 H0. rewrite completions_app, completions_started.
    pose proof (I12 _ _ H0). lia.
  - intros k w0 H0 Hl0 Hc. rewrite completions_app, completions_started.
    by rewrite (I13 _ _ H0 Hl0 Hc).
Qed.

End Invariant_submit.

(** ** The invariant holds along every execution *)
Section Invariant_runs.

Lemma Inv_submit_task m f a n q kw now :
  Inv m → Inv (submit_task m f a n q kw now).1.
Proof.
  intros HI. unfold submit_task, next_task_id.
  set (c := (_task_counter m + 1)%N).
  set (tid := TaskId.make_id n c now).
  destruct (next_id_fresh m n now HI) as [Hf1 Hf2]. fold c tid in Hf1, Hf2.
  assert (Inv (with_counter c m)) as HI' by (apply Inv_with_counter; [done | lia]).
  assert (bounded (with_counter c m) tid) as Hb.
  { exists c. split; [by exists n, now | simpl; lia]. }
  destruct q.
  - apply (Inv_add_worker (with_counter c m) (WorkerThread.new tid f a kw));
      done.
  - unfold ThreadPoolExecutor.submit. simpl.
    destruct (ThreadPoolExecutor._shutdown (thread_pool m)); [done |].
    apply (Inv_add_item (with_counter c m)
             (ThreadPoolExecutor.WorkItem tid f a kw Future.PENDING)); done.
Qed.

Lemma Inv_init max_workers m0 : __init__ max_workers = Return m0 → Inv m0.
Proof.
  unfold __init__, ThreadPoolExecutor.new. case_decide; [done |].
  intros [= <-]. split; simpl; try done;
    try (intros tid Hin; by apply elem_of_nil in Hin).
  all: first [apply NoDup_nil_2 | apply paired_nil].
Qed.

Lemma Inv_exec_op o m : Inv m → Inv (exec_op o m).1.
Proof.
  intros HI. destruct o; simpl.
  - pose proof (Inv_submit_task m func args task_name use_qthread kwargs now HI).
    by destruct (submit_task _ _ _ _ _ _ _).
  - pose proof (Inv_cancel_task m task_id HI). by destruct (cancel_task _ _).
  - by apply Inv_cancel_all_tasks.
  - pose proof (Inv_shutdown m wait timeout HI). by destruct (shutdown _ _ _).
  - destruct (cleanup_timer m); [by apply Inv_cleanup_finished_tasks | done].
  - by apply Inv_thread_finished.
  - by apply Inv_pool_pick.
  - by apply Inv_pool_step.
  - by apply Inv_worker_step.
Qed.

Lemma Inv_run ops m : Inv m → Inv (run ops m).1.
Proof.
  revert m. induction ops as [|o ops IH]; intros m HI; simpl; [done |].
  pose proof (Inv_exec_op o m HI) as H1.
  destruct (exec_op o m) as [m1 r]. specialize (IH m1 H1).
  by destruct (run ops m1) as [m2 rs].
Qed.

(** The invariant holds in every state the manager can be in. *)
Lemma reachable_Inv m : reachable m → Inv m.
Proof.
  intros (n & m0 & ops & Hinit & <-). by eapply Inv_run, Inv_init.
Qed.

Lemma run_app ops1 ops2 m :
  (run (ops1 ++ ops2) m).1 = (run ops2 (run ops1 m).1).1.
Proof.
  revert m. induction ops1 as [|o ops1 IH]; intros m; simpl; [done |].
  destruct (exec_op o m) as [m1 r]. specialize (IH m1).
  destruct (run (ops1 ++ ops2) m1), (run ops1 m1). simpl in *. done.
Qed.

Lemma reachable_run ops m : reachable m → reachable (run ops m).1.
Proof.
  intros (n & m0 & ops0 & Hinit & <-). exists n, m0, (ops0 ++ ops)%list.
  split; [done | apply run_app].
Qed.

End Invariant_runs.
(** ** Identifiers and cancellation *)
Section Identifiers_and_cancellation.

(** The identifiers issued along a run carry counter values used during
    that run. *)
Lemma issued_counter ops m tid :
  tid ∈ issued (run ops m).2 →
  ∃ c, TaskId.has_counter tid c
       ∧ (_task_counter m < c ≤ _task_counter (run ops m).1)%N.
Proof.
  revert m. induction ops as [|o ops IH]; intros m; simpl.
  { intros H. by apply elem_of_nil in H. }
  pose proof (exec_op_counter_mono o m) as Hmono.
  destruct (exec_op o m) as [m1 r] eqn:Ho. specialize (IH m1).
  pose proof (run_counter_mono ops m1) as Hmono'.
  destruct (run ops m1) as [m2 rs] eqn:Hr. simpl in *.
  assert (tid ∈ issued rs →
          ∃ c, TaskId.has_counter tid c
               ∧ (_task_counter m < c ≤ _task_counter m2)%N) as Htail.
  { intros Hin. destruct (IH Hin) as (c & Hc & Hb). exists c. split; [done | lia]. }
  destruct r as [[tid0|e]| | |]; try done.
  intros Hin. apply elem_of_cons in Hin as [->|Hin]; [| by apply Htail].
  destruct o as [f a n q kw now| | | | | | | |]; simpl in Ho;
    try (by repeat case_match; simplify_eq).
  pose proof (submit_task_counter m f a n q kw now) as Hc.
  pose proof (submit_task_returns m f a n q kw now tid0) as Hid.
  destruct (submit_task _ _ _ _ _ _ _) as [m1' r']. simplify_eq/=.
  exists (_task_counter m + 1)%N. split; [| lia].
  exists n, now. by apply Hid.
Qed.

Lemma issued_NoDup ops m : NoDup (issued (run ops m).2).
Proof.
  revert m. induction ops as [|o ops IH]; intros m; simpl.
  { apply NoDup_nil_2. }
  pose proof (exec_op_counter_mono o m) as Hmono.
  destruct (exec_op o m) as [m1 r] eqn:Ho. specialize (IH m1).
  pose proof (issued_counter ops m1) as Hc.
  destruct (run ops m1) as [m2 rs] eqn:Hr. simpl in *.
  destruct r as [[tid0|e]| | |]; try done.
  apply NoDup_cons. split; [| done]. intros Hin.
  destruct (Hc _ Hin) as (c & Hc1 & Hc2).
  destruct o as [f a n q kw now| | | | | | | |]; simpl in Ho;
    try (by repeat case_match; simplify_eq).
  pose proof (submit_task_counter m f a n q kw now) as Hc'.
  pose proof (submit_task_returns m f a n q kw now tid0) as Hid.
  destruct (submit_task _ _ _ _ _ _ _) as [m1' r']. simplify_eq/=.
  assert (TaskId.has_counter tid0 (_task_counter m + 1)) as Hc3
    by (exists n, now; by apply Hid).
  pose proof (has_counter_functional _ _ _ Hc1 Hc3). lia.
Qed.

(** C6. Task identifiers are unique: the identifiers issued along any
    execution of a manager are pairwise distinct, and a further call of
    [submit_task] returns an identifier that was not issued before and
    that no record (dictionary entry, worker or work item) carries. *)
Theorem task_ids_unique max_workers m0 ops f a n q kw now tid :
  __init__ max_workers = Return m0 →
  (submit_task (run ops m0).1 f a n q kw now).2 = Return tid →
  NoDup (issued (run ops m0).2)
  ∧ (tid ∉ issued (run ops m0).2)
  ∧ active_threads (run ops m0).1 !! tid = None
  ∧ active_futures (run ops m0).1 !! tid = None
  ∧ (tid ∉ item_ids (run ops m0).1)
  ∧ (tid ∉ worker_ids (run ops m0).1).
Proof.
  intros Hinit Hsub.
  assert (Inv (run ops m0).1) as HI by (by eapply Inv_run, Inv_init).
  apply submit_task_returns in Hsub. subst tid.
  destruct (next_id_fresh _ n now HI) as [Hf1 Hf2].
  split; [apply issued_NoDup |]. split; [| split; [| split]]; [| | | done].
  - intros Hin. destruct (issued_counter _ _ _ Hin) as (c & Hc1 & Hc2).
    assert (TaskId.has_counter
              (TaskId.make_id n (_task_counter (run ops m0).1 + 1) now)
              (_task_counter (run ops m0).1 + 1)) as Hc3 by (by exists n, now).
    pose proof (has_counter_functional _ _ _ Hc1 Hc3). lia.
  - destruct (active_threads _ !! _) as [k|] eqn:Hk; [| done].
    destruct (inv_threads _ HI _ _ Hk) as (w & Hw & Hid).
    destruct Hf2. rewrite <- Hid. by eapply worker_id_elem.
  - destruct (active_futures _ !! _) as [h|] eqn:Hh; [| done].
    destruct (inv_futures _ HI _ _ Hh) as (it & Hit & Hid).
    destruct Hf1. rewrite <- Hid. by eapply item_id_elem.
Qed.

(** C7. [cancel_task] always returns a boolean (the model has no way for
    it to raise: line 235 catches every exception); the boolean is true
    exactly when a cancellation signal was delivered to a record of the
    registry, and it is false, with nothing changed, for an identifier
    that is in neither dictionary. *)
Theorem cancel_task_delivers m task_id :
  reachable m →
  ((cancel_task m task_id).2 = true
   ↔ cancellation_delivered m task_id (cancel_task m task_id).1)
  ∧ (active_threads m !! task_id = None →
     active_futures m !! task_id = None →
     cancel_task m task_id = (m, false)).
Proof.
  intros Hr. pose proof (reachable_Inv _ Hr) as HI.
  unfold cancel_task, cancellation_delivered.
  destruct (active_threads m !! task_id) as [k|] eqn:Hk.
  - destruct (inv_threads _ HI _ _ Hk) as (w & Hw & Hid). rewrite Hw. simpl.
    split; [| done]. split; [| done]. intros _. left.
    exists k, (WorkerThread.cancel w).1. split; [done |]. split; [| done].
    apply list_lookup_insert_eq. by eapply lookup_lt_Some.
  - destruct (active_futures m !! task_id) as [h|] eqn:Hh.
    + destruct (inv_futures _ HI _ _ Hh) as (it & Hit & Hid).
      unfold future_cancel. rewrite Hit.
      split; [| done].
      destruct (ThreadPoolExecutor.future it) eqn:Hf; simpl; split;
        try done; try (intros [(?&?&?&_)|(h'&Hh'&Hs)]; [done |]);
        try (intros _; right; exists h; split; [done |]);
        unfold ThreadPoolExecutor.future_state in *; simpl in *;
        simplify_eq;
        rewrite ?list_lookup_insert_eq in * by (by eapply lookup_lt_Some);
        simpl in *; by simplify_eq.
    + split; [| done]. split; [done |].
      intros [(?&?&?&_)|(?&?&_)]; done.
Qed.


End Identifiers_and_cancellation.

(** ** What stays once it holds: a cancelled work item, a set flag *)
Section Stable.

Lemma with_future_same it :
  ThreadPoolExecutor.with_future (ThreadPoolExecutor.future it) it = it.
Proof. by destruct it. Qed.

Lemma foldl_keeps {A} (P : t → Prop) (f : t → A → t) (l : list A) :
  (∀ m a, P m → P (f m a)) → ∀ m, P m → P (foldl f m l).
Proof.
  intros Hf. induction l as [|a l IH]; intros m HP; simpl; [done |].
  apply IH. by apply Hf.
Qed.

Section Cancelled_item.
Variables (h : nat) (it : ThreadPoolExecutor.work_item).










End Cancelled_item.


Section Flagged.
Variable k : nat.

Lemma flagged_insert m k' w w' :
  flagged k m → qthreads m !! k' = Some w →
  (WorkerThread._is_cancelled w = true →
   WorkerThread._is_cancelled w' = true) →
  ∃ w0, <[k' := w']> (qthreads m) !! k = Some w0
        ∧ WorkerThread._is_cancelled w0 = true.
Proof.
  intros (w0 & Hw0 & Hc) Hw Hmono.
  destruct (decide (k' = k)) as [->|Hne].
  - exists w'. split; [apply list_lookup_insert_eq; by eapply lookup_lt_Some |].
    simplify_eq. by apply Hmono.
  - exists w0. by rewrite list_lookup_insert_ne.
Qed.

Lemma flagged_cancel_task m tid : flagged k m → flagged k (cancel_task m tid).1.
Proof.
  intros Hf. unfold cancel_task.
  destruct (active_threads m !! tid) as [k'|].
  - destruct (qthreads m !! k') as [w|] eqn:Hw; [| done].
    by apply (flagged_insert m k' w).
  - destruct (active_futures m !! tid) as [h'|]; [| done].
    unfold future_cancel. repeat case_match; simplify_eq/=; done.
Qed.

Lemma flagged_cancel_all_tasks m : flagged k m → flagged k (cancel_all_tasks m).
Proof.
  intros Hf. unfold cancel_all_tasks.
  set (f := λ (m : t) (task_id : string), (cancel_task m task_id).1).
  apply (foldl_keeps _ f); [intros; by apply flagged_cancel_task |].
  apply (foldl_keeps _ f); [intros; by apply flagged_cancel_task | done].
Qed.

Lemma flagged_future_cancel h m : flagged k m → flagged k (future_cancel h m).1.
Proof. intros Hf. unfold future_cancel. repeat case_match; done. Qed.

Lemma flagged_shutdown m wait timeout :
  flagged k m → flagged k (shutdown m wait timeout).1.
Proof.
  intros Hf. unfold shutdown.
  set (m1 := cancel_all_tasks (with_timer false m)).
  assert (flagged k m1) as H1 by (by apply flagged_cancel_all_tasks).
  destruct (_ && _ && _).
  - destruct (Scope.callee _ _) as [[]|e]; [| done].
    destruct (futures_wait m1 _) as [dn nd]. simpl.
    apply (foldl_keeps (flagged k) (λ m future, (future_cancel future m).1));
      [intros; by apply flagged_future_cancel | done].
  - done.
Qed.

Lemma flagged_exec_op o m : flagged k m → flagged k (exec_op o m).1.
Proof.
  intros Hf. destruct o; simpl.
  - unfold submit_task, next_task_id. destruct use_qthread; simpl.
    + destruct Hf as (w & Hw & Hc). exists w. split; [| done].
      by apply lookup_app_l_Some.
    + unfold ThreadPoolExecutor.submit.
      destruct (ThreadPoolExecutor._shutdown _); exact Hf.
  - pose proof (flagged_cancel_task m task_id Hf). by destruct (cancel_task _ _).
  - by apply flagged_cancel_all_tasks.
  - pose proof (flagged_shutdown m wait timeout Hf). by destruct (shutdown _ _ _).
  - by destruct (cleanup_timer m).
  - unfold thread_finished, _cleanup_thread.
    destruct (qthreads m !! k0) as [w|] eqn:Hw; [| done].
    destruct (WorkerThread.at_pc w); try done.
    simpl. destruct (active_threads m !! _); by apply (flagged_insert m k0 w).
  - unfold pool_pick. repeat case_match; done.
  - unfold pool_step. repeat case_match; done.
  - unfold worker_step.
    destruct (qthreads m !! k0) as [w|] eqn:Hw; [| done].
    destruct (WorkerThread.at_pc w); try done;
      repeat case_match; by apply (flagged_insert m k0 w).
Qed.

Lemma flagged_run ops m : flagged k m → flagged k (run ops m).1.
Proof.
  revert m. induction ops as [|o ops IH]; intros m Hf; simpl; [done |].
  pose proof (flagged_exec_op o m Hf) as H1.
  destruct (exec_op o m) as [m1 r]. specialize (IH m1 H1).
  by destruct (run ops m1).
Qed.

End Flagged.


End Stable.
(** ** Shutdown, submission and what a callable receives *)
Section Shutdown_and_callbacks.

Lemma fresh_manager_init : __init__ 4 = Return fresh_manager.
Proof. reflexivity. Qed.

(** *** Shutdown *)

(** With [wait=True] and a number as [timeout], [shutdown] raises as soon
    as a future is left in the registry after [cancel_all_tasks]. *)
Lemma shutdown_wait_raises m timeout :
  active_futures (cancel_all_tasks (with_timer false m)) ≠ ∅ →
  shutdown m true (Some timeout)
  = (cancel_all_tasks (with_timer false m), ShutdownRaises type_error_bool).
Proof.
  intros Hne. unfold shutdown.
  rewrite (bool_decide_true (is_Some (Some timeout))) by (by eexists).
  rewrite (bool_decide_false (_ = ∅)) by done. done.
Qed.

Lemma shutdown_sets_flag m wait timeout :
  (∀ e, (shutdown m wait timeout).2 ≠ ShutdownRaises e) →
  ThreadPoolExecutor._shutdown (thread_pool (shutdown m wait timeout).1) = true.
Proof.
  unfold shutdown.
  destruct (_ && _ && _) eqn:Hg; [| done].
  apply andb_prop in Hg as [Hg _]. apply andb_prop in Hg as [-> _].
  simpl. intros H. by destruct (H type_error_bool).
Qed.

(** C2 (the code departs from the claim). One pooled task is running;
    [shutdown(wait=True, timeout=0)] does not complete: the name [wait]
    is the boolean parameter, calling it raises [TypeError], and
    [thread_pool.shutdown] is never reached. *)
Theorem shutdown_wait_true_raises :
  let m := (run [Submit (Callable [] (Return (PyOpaque 0))) [] None false ∅
                   1700000000;
                 PoolPick 0] fresh_manager).1 in
  (shutdown m true (Some 0%Z)).2 = ShutdownRaises type_error_bool
  ∧ ThreadPoolExecutor._shutdown (thread_pool (shutdown m true (Some 0%Z)).1)
    = false.
Proof. vm_compute. done. Qed.

(** *** Submission after shutdown *)

(** C4, as the code has it. Once [shutdown] has ended without raising,
    [submit_task] on the pool raises [RuntimeError] to the caller: no
    identifier is returned, nothing is registered or emitted, only the
    counter has advanced.  With [use_qthread] it still returns an
    identifier and starts the worker. *)
Theorem submit_after_shutdown m wait timeout f a n kw now :
  (∀ e, (shutdown m wait timeout).2 ≠ ShutdownRaises e) →
  let m' := (shutdown m wait timeout).1 in
  submit_task m' f a n false kw now
  = (with_counter (_task_counter m' + 1) m', Raise shutdown_error)
  ∧ (submit_task m' f a n true kw now).2
    = Return (TaskId.make_id n (_task_counter m' + 1) now)
  ∧ active_threads (submit_task m' f a n true kw now).1
      !! TaskId.make_id n (_task_counter m' + 1) now
    = Some (length (qthreads m')).
Proof.
  intros Hret m'. pose proof (shutdown_sets_flag m wait timeout Hret) as Hs.
  fold m' in Hs. unfold submit_task, next_task_id, ThreadPoolExecutor.submit.
  simpl. rewrite Hs. split; [done |]. split; [done |].
  apply lookup_insert_eq.
Qed.

(** *** What a callable is invoked with *)










End Shutdown_and_callbacks.

(** ** Results, the list of active tasks, cancelled workers *)
Section Results.



Lemma elem_of_get_active_tasks m tid :
  tid ∈ get_active_tasks m
  ↔ is_Some (active_threads m !! tid) ∨ is_Some (active_futures m !! tid).
Proof.
  unfold get_active_tasks. rewrite elem_of_app.
  assert (∀ a : gmap string nat,
            tid ∈ (map_to_list a).*1 ↔ is_Some (a !! tid)) as Hkeys.
  { intros a. rewrite list_elem_of_fmap. split.
    - intros ([tid' h] & -> & Hin). apply elem_of_map_to_list in Hin.
      by eexists.
    - intros [h Hh]. exists (tid, h). split; [done |].
      by apply elem_of_map_to_list. }
  by rewrite !Hkeys.
Qed.

(** C9, as the code has it. The list holds the identifier of every task
    that is pending or running, and identifiers of known tasks only; it
    may also hold tasks that have ended and wait for the sweep (or for
    the [finished] signal).  Right after a sweep no pooled task that has
    ended is in it. *)
Theorem active_tasks_listed m tid :
  reachable m →
  (task_active m tid = true → tid ∈ get_active_tasks m)
  ∧ (tid ∈ get_active_tasks m → tid ∈ item_ids m ∨ tid ∈ worker_ids m)
  ∧ (∀ h, active_futures (_cleanup_finished_tasks m) !! tid = Some h →
          active_futures m !! tid = Some h ∧ future_done m h = false)
  ∧ active_threads (_cleanup_finished_tasks m) = active_threads m.
Proof.
  intros Hr. pose proof (reachable_Inv _ Hr) as HI.
  split; [| split; [| split; [| done]]].
  - unfold task_active. intros Ha. apply elem_of_get_active_tasks.
    apply orb_prop in Ha as [Ha|Ha]; apply existsb_exists in Ha.
    + destruct Ha as (it & Hin & Hb). apply andb_prop in Hb as [Hid Hnd].
      apply bool_decide_eq_true in Hid. apply negb_true_iff in Hnd.
      apply list_elem_of_In, list_elem_of_lookup in Hin as [h Hit].
      right. exists h. subst tid. by apply (inv_live_futures _ HI).
    + destruct Ha as (w & Hin & Hb). apply andb_prop in Hb as [Hid Hl].
      apply bool_decide_eq_true in Hid.
      apply list_elem_of_In, list_elem_of_lookup in Hin as [k Hw].
      left. exists k. subst tid. by apply (inv_live_threads _ HI).
  - intros Hin. apply elem_of_get_active_tasks in Hin as [[k Hk]|[h Hh]].
    + right. destruct (inv_threads _ HI _ _ Hk) as (w & Hw & <-).
      by eapply worker_id_elem.
    + left. destruct (inv_futures _ HI _ _ Hh) as (it & Hit & <-).
      by eapply item_id_elem.
  - intros h. unfold _cleanup_finished_tasks. simpl.
    rewrite lookup_foldl_delete. case_decide as Hin; [done |].
    intros Hh. split; [done |].
    destruct (future_done m h) eqn:Hd; [| done].
    destruct Hin. apply list_elem_of_fmap. exists (tid, h). split; [done |].
    apply list_elem_of_filter. split; [done |]. by apply elem_of_map_to_list.
Qed.

(** C10, as the code has it. Once the flag of a dedicated worker is set it
    stays set, and from then on every invocation of the two injected
    callbacks emits nothing.  (The worker itself still emits status
    signals: "Cancelado" in [cancel], and "Erro: ..." when the callable
    raises.) *)
Theorem cancelled_worker_callbacks_discarded m k ops i :
  flagged k m →
  flagged k (run ops m).1
  ∧ invoke (run ops m).1 (Some (WorkerProgressCb k)) i = []
  ∧ invoke (run ops m).1 (Some (WorkerStatusCb k)) i = []
  ∧ ∀ w rest,
      qthreads (run ops m).1 !! k = Some w →
      WorkerThread.at_pc w = WorkerThread.InFunc →
      calls (WorkerThread.func w) = i :: rest →
      WorkerThread.kwargs w !! callback_key i = Some (WorkerProgressCb k)
      ∨ WorkerThread.kwargs w !! callback_key i = Some (WorkerStatusCb k) →
      signals (worker_step k (run ops m).1) = signals (run ops m).1.
Proof.
  intros Hf. pose proof (flagged_run k ops m Hf) as Hf'.
  set (m' := (run ops m).1) in *.
  assert (∀ cb, cb = WorkerProgressCb k ∨ cb = WorkerStatusCb k →
                invoke m' (Some cb) i = []) as Hinv.
  { destruct Hf' as (w & Hw & Hc).
    intros cb [-> | ->]; unfold invoke; destruct i; by rewrite ?Hw, ?Hc. }
  split; [done |]. split; [apply Hinv; by left |].
  split; [apply Hinv; by right |].
  intros w rest Hw Hpc Hc Hkw. unfold worker_step.
  rewrite Hw, Hpc, Hc. simpl.
  destruct Hkw as [-> | ->]; rewrite Hinv by auto; apply app_nil_r.
Qed.


End Results.
(** ** The properties on concrete executions *)
Section Examples.

Lemma reachable_fresh ops : reachable (run ops fresh_manager).1.
Proof. exists 4, fresh_manager, ops. split; reflexivity. Qed.



(** C4 fails as stated: [shutdown] returns, and a later [submit_task] with
    [use_qthread=True] returns an identifier. *)
Lemma submit_after_shutdown_counterexample :
  (shutdown fresh_manager true (Some 10%Z)).2 = ShutdownReturns
  ∧ (submit_task (shutdown fresh_manager true (Some 10%Z)).1 quiet_task []
       None true ∅ 1700000000).2
    = Return id1.
Proof. by vm_compute. Qed.


(** C9 fails as stated: a pooled task that has ended stays in the list
    until the sweep. *)
Lemma active_tasks_counterexample :
  get_active_tasks (run run_to_end fresh_manager).1 = [id1]
  ∧ ThreadPoolExecutor.future_state
      (thread_pool (run run_to_end fresh_manager).1) 0
    = Some (Future.FINISHED (Return (PyOpaque 0)))
  ∧ task_active (run run_to_end fresh_manager).1 id1 = false.
Proof. by vm_compute. Qed.

(** C10 fails as stated: the flag of the worker is set, and the status
    "Erro: boom" is emitted for its task afterwards. *)
Lemma cancelled_worker_silent_counterexample :
  let m := (run run_cancel_then_raise fresh_manager).1 in
  flagged 0 m
  ∧ filter (λ s, progress_or_status id1 s = true)
      (drop (length (signals m)) (signals (run [WorkerStep 0] m).1))
    = [task_status id1 "Erro: boom"].
Proof.
  split; [| by vm_compute].
  eexists. split; [by vm_compute | done].
Qed.


Lemma task_ids_unique_witness :
  __init__ 4 = Return fresh_manager
  ∧ NoDup (issued (run run_two_new fresh_manager).2)
  ∧ ("task_3_1700000009" ∉ issued (run run_two_new fresh_manager).2).
Proof.
  split; [reflexivity |].
  pose proof (task_ids_unique 4 fresh_manager run_two_new quiet_task [] None
                true ∅ 1700000009 "task_3_1700000009" eq_refl eq_refl)
    as (H1 & H2 & _).
  exact (conj H1 H2).
Defined.

Lemma cancel_task_delivers_witness :
  reachable (run run_queued fresh_manager).1
  ∧ ((cancel_task (run run_queued fresh_manager).1 id1).2 = true
     ↔ cancellation_delivered (run run_queued fresh_manager).1 id1
         (cancel_task (run run_queued fresh_manager).1 id1).1).
Proof.
  split; [apply reachable_fresh |].
  apply (cancel_task_delivers (run run_queued fresh_manager).1 id1
           (reachable_fresh run_queued)).
Defined.




Lemma submit_after_shutdown_witness :
  (∀ e, (shutdown fresh_manager true (Some 10%Z)).2 ≠ ShutdownRaises e)
  ∧ (submit_task (shutdown fresh_manager true (Some 10%Z)).1 quiet_task []
       None false ∅ 1700000000).2
    = Raise shutdown_error.
Proof.
  assert (∀ e, (shutdown fresh_manager true (Some 10%Z)).2 ≠ ShutdownRaises e)
    as H1 by (intros e; vm_compute; discriminate).
  split; [exact H1 |].
  pose proof (submit_after_shutdown fresh_manager true (Some 10%Z) quiet_task
                [] None ∅ 1700000000 H1) as (H2 & _).
  exact (f_equal snd H2).
Defined.


Lemma active_tasks_listed_witness :
  reachable (run run_to_end fresh_manager).1
  ∧ (task_active (run run_to_end fresh_manager).1 id1 = true →
     id1 ∈ get_active_tasks (run run_to_end fresh_manager).1)
  ∧ (∀ h, active_futures
            (_cleanup_finished_tasks (run run_to_end fresh_manager).1) !! id1
          = Some h →
          active_futures (run run_to_end fresh_manager).1 !! id1 = Some h
          ∧ future_done (run run_to_end fresh_manager).1 h = false).
Proof.
  split; [apply reachable_fresh |].
  pose proof (active_tasks_listed (run run_to_end fresh_manager).1 id1
                (reachable_fresh run_to_end)) as (H1 & _ & H2 & _).
  exact (conj H1 H2).
Defined.

Lemma cancelled_worker_callbacks_discarded_witness :
  let m := (run run_cancel_then_raise fresh_manager).1 in
  flagged 0 m
  ∧ flagged 0 (run [WorkerStep 0; ThreadFinished 0] m).1
  ∧ invoke (run [WorkerStep 0; ThreadFinished 0] m).1
      (Some (WorkerProgressCb 0)) (CallProgress 70) = [].
Proof.
  intros m.
  assert (flagged 0 m) as H1.
  { exists (WorkerThread.Make id1 boom_task [] (WorkerThread.inject 0 ∅) true
              WorkerThread.InFunc).
    split; [by vm_compute | reflexivity]. }
  split; [exact H1 |].
  pose proof (cancelled_worker_callbacks_discarded m 0
                [WorkerStep 0; ThreadFinished 0] (CallProgress 70) H1)
    as (H2 & H3 & _).
  exact (conj H2 H3).
Defined.


End Examples.
(** ** Further properties of the code *)

(** *** What an identifier encodes; the counter *)
Section Identifier_decoding.

(** What stands before the counter in an identifier. *)
Lemma make_id_prefix (task_name : option string) (c now : N) :
  make_id task_name c now
  = ((if truthy_name task_name
      then default "" task_name +:+ String "_"%char "task"
      else "task")
       +:+ String "_"%char (py_str_int c))
      +:+ String "_"%char (py_str_int now).
Proof.
  destruct task_name as [[|x name]|]; simpl; try done.
  unfold base_id. by rewrite !string_app_assoc.
Qed.

Lemma prefix_not_task (name : string) :
  name +:+ String "_"%char "task" ≠ "task".
Proof.
  intros Heq.
  pose proof (underscore_in_middle name "task") as Hu.
  rewrite Heq in Hu. done.
Qed.

Lemma prefix_inj (a b : string) :
  a +:+ String "_"%char "task" = b +:+ String "_"%char "task" → a = b.
Proof.
  intros Heq. by apply cut_at_last_underscore in Heq as [? _].
Qed.

(** X1. The counter, the clock reading and the name can all be read back from
    an identifier: two calls produce the same identifier only with the same
    counter value, the same second, and the same name ([None] and the empty
    string count as the same name, neither is used). *)
Theorem make_id_inj (n n' : option string) (c c' t t' : N) :
  make_id n c t = make_id n' c' t' →
  c = c' ∧ t = t'
  ∧ truthy_name n = truthy_name n'
  ∧ (truthy_name n = true → n = n').
Proof.
  rewrite !make_id_prefix. intros Heq.
  apply cut_at_last_underscore in Heq as [Heq Ht];
    [| apply no_underscore_py_str_int ..].
  apply cut_at_last_underscore in Heq as [Hp Hc];
    [| apply no_underscore_py_str_int ..].
  apply py_str_int_inj in Ht, Hc. split; [done |]. split; [done |].
  destruct n as [[|x name]|], n' as [[|x' name']|]; simpl in *; try done;
    try (by destruct (prefix_not_task _ Hp));
    try (symmetry in Hp; by destruct (prefix_not_task _ Hp)).
  apply prefix_inj in Hp. split; [done |]. intros _. by rewrite Hp.
Qed.

End Identifier_decoding.

Section Counter.

(** X2. The identifiers are issued in the order of their counters. *)
Theorem issued_in_counter_order ops m i j tid1 tid2 c1 c2 :
  issued (run ops m).2 !! i = Some tid1 →
  issued (run ops m).2 !! j = Some tid2 →
  i < j →
  has_counter tid1 c1 → has_counter tid2 c2 →
  (c1 < c2)%N.
Proof.
  revert m i j. induction ops as [|o ops IH]; intros m i j; simpl.
  { intros H. by rewrite lookup_nil in H. }
  pose proof (exec_op_counter_mono o m) as Hmono.
  destruct (exec_op o m) as [m1 r] eqn:Ho.
  pose proof (issued_counter ops m1) as Hc. specialize (IH m1).
  destruct (run ops m1) as [m2 rs] eqn:Hr. simpl in *.
  destruct r as [[tid0|e]| | |]; try (by apply IH).
  destruct i as [|i]; destruct j as [|j]; simpl; try lia.
  - intros [= <-] Hj _ H1 H2.
    apply list_elem_of_lookup_2, Hc in Hj as (c & Hc2 & Hb).
    rewrite (has_counter_functional _ _ _ H2 Hc2).
    destruct o as [f a n q kw now| | | | | | | |]; simpl in Ho;
      try (by repeat case_match; simplify_eq).
    pose proof (submit_task_counter m f a n q kw now) as Hc'.
    pose proof (submit_task_returns m f a n q kw now tid0) as Hid.
    destruct (submit_task _ _ _ _ _ _ _) as [m1' r']. simplify_eq/=.
    assert (has_counter tid0 (_task_counter m + 1)) as Hc3
      by (exists n, now; by apply Hid).
    rewrite (has_counter_functional _ _ _ H1 Hc3). lia.
  - intros Hi Hj Hlt. apply (IH i j); [done | done | lia].
Qed.

Lemma exec_op_counter o m :
  _task_counter (exec_op o m).1
  = (_task_counter m + if is_submit o then 1 else 0)%N.
Proof.
  destruct o as [f a n q kw now| | | | | | | |].
  2-9: match goal with |- context [exec_op ?o _] =>
         destruct (exec_op_same_ids o m) as [-> _]; [done | simpl; lia] end.
  simpl. pose proof (submit_task_counter m f a n q kw now).
  by destruct (submit_task _ _ _ _ _ _ _).
Qed.

(** X3. The counter counts the calls of [submit_task], those that raise
    included; nothing else moves it. *)
Theorem counter_counts_submissions ops m :
  _task_counter (run ops m).1
  = (_task_counter m + N.of_nat (length (filter (λ o, is_submit o = true) ops)))%N.
Proof.
  revert m. induction ops as [|o ops IH]; intros m; simpl; [lia |].
  pose proof (exec_op_counter o m) as H1.
  destruct (exec_op o m) as [m1 r]. specialize (IH m1).
  destruct (run ops m1) as [m2 rs]. simpl in *.
  rewrite IH, H1, filter_cons. destruct (is_submit o); simpl; lia.
Qed.

End Counter.

(** *** The registry: submitting, listing, counting, sweeping *)
Section Registry.

Lemma registries_disjoint m tid k h :
  Inv m → active_threads m !! tid = Some k → active_futures m !! tid = Some h →
  False.
Proof.
  intros HI Hk Hh.
  destruct (inv_threads _ HI _ _ Hk) as (w & Hw & Hidw).
  destruct (inv_futures _ HI _ _ Hh) as (it & Hit & Hidi).
  apply (item_worker_id_ne m h k it w HI Hit Hw). congruence.
Qed.

(** X5. The list of active tasks names no task twice, and [get_task_count]
    gives its length under 'total'. *)
Theorem active_tasks_distinct_and_counted m :
  reachable m →
  NoDup (get_active_tasks m)
  ∧ (get_task_count m).2 = length (get_active_tasks m)
  ∧ (get_task_count m).1.1 + (get_task_count m).1.2 = (get_task_count m).2.
Proof.
  intros Hr. pose proof (reachable_Inv _ Hr) as HI.
  unfold get_active_tasks, get_task_count. simpl.
  split; [| split; [| done]].
  - apply NoDup_app. split; [apply NoDup_fst_map_to_list |].
    split; [| apply NoDup_fst_map_to_list].
    intros tid H1 H2.
    apply list_elem_of_fmap in H1 as ([tid1 k] & -> & H1).
    apply list_elem_of_fmap in H2 as ([tid2 h] & Heq & H2). simpl in *. subst.
    apply elem_of_map_to_list in H1, H2.
    by eapply registries_disjoint.
  - by rewrite length_app, !length_fmap, !length_map_to_list.
Qed.


(** X6. The sweep keeps exactly the registered futures that have not ended and
    touches nothing else; sweeping twice is the same as sweeping once. *)
Theorem cleanup_finished_tasks_exact m tid :
  active_futures (_cleanup_finished_tasks m) !! tid
  = match active_futures m !! tid with
    | Some h => if future_done m h then None else Some h
    | None => None
    end
  ∧ _cleanup_finished_tasks m
    = with_futures (active_futures (_cleanup_finished_tasks m)) m
  ∧ _cleanup_finished_tasks (_cleanup_finished_tasks m)
    = _cleanup_finished_tasks m.
Proof.
  assert (∀ m tid,
            active_futures (_cleanup_finished_tasks m) !! tid
            = match active_futures m !! tid with
              | Some h => if future_done m h then None else Some h
              | None => None
              end) as Hlk.
  { clear. intros m tid. unfold _cleanup_finished_tasks. simpl.
    rewrite lookup_foldl_delete.
    destruct (active_futures m !! tid) as [h|] eqn:Hh.
    - destruct (future_done m h) eqn:Hd.
      + rewrite decide_True; [done |].
        apply list_elem_of_fmap. exists (tid, h). split; [done |].
        apply list_elem_of_filter. split; [done |]. by apply elem_of_map_to_list.
      + rewrite decide_False; [done |]. intros Hin.
        apply list_elem_of_fmap in Hin as ([tid' h'] & -> & Hin).
        apply list_elem_of_filter in Hin as [Hd' Hin].
        apply elem_of_map_to_list in Hin. simpl in *. congruence.
    - by case_decide. }
  split; [apply Hlk |]. split; [done |].
  assert (active_futures (_cleanup_finished_tasks (_cleanup_finished_tasks m))
          = active_futures (_cleanup_finished_tasks m)) as Heq.
  { apply map_eq. intros tid'. rewrite Hlk.
    destruct (active_futures (_cleanup_finished_tasks m) !! tid') as [h|] eqn:Hh;
      [| done].
    rewrite Hlk in Hh. destruct (active_futures m !! tid') as [h'|]; [| done].
    destruct (future_done m h') eqn:Hd; [done |]. simplify_eq.
    unfold future_done in *. simpl. by rewrite Hd. }
  set (m1 := _cleanup_finished_tasks m) in *.
  change (_cleanup_finished_tasks m1)
    with (with_futures (active_futures (_cleanup_finished_tasks m1)) m1).
  rewrite Heq. by destruct m1.
Qed.

(** X7. A pooled task that is running or has ended cannot be cancelled:
    [cancel_task] returns [False] and leaves the manager exactly as it
    was. *)
Theorem cancel_running_pooled_is_noop m tid h it :
  reachable m →
  active_futures m !! tid = Some h →
  items m !! h = Some it →
  Future.done (ThreadPoolExecutor.future it) = true
  ∨ ThreadPoolExecutor.future it = Future.RUNNING →
  ThreadPoolExecutor.future it ≠ Future.CANCELLED →
  cancel_task m tid = (m, false).
Proof.
  intros Hr Hh Hit Hs Hnc. pose proof (reachable_Inv _ Hr) as HI.
  assert (active_threads m !! tid = None) as Hk.
  { destruct (active_threads m !! tid) as [k|] eqn:Hk; [| done].
    by destruct (registries_disjoint m tid k h). }
  unfold cancel_task, future_cancel. rewrite Hk, Hh, Hit.
  assert (Future.cancel (ThreadPoolExecutor.future it)
          = (ThreadPoolExecutor.future it, false)) as ->.
  { destruct (ThreadPoolExecutor.future it); simpl in *; try done.
    by destruct Hs. }
  rewrite with_future_same. f_equal.
  destruct m as [mw [pw pi ps] at_ af c tm q s]. simpl in *.
  unfold with_pool, ThreadPoolExecutor.set_item. simpl.
  by rewrite list_insert_id.
Qed.

End Registry.

(** *** [cancel_all_tasks] *)
Section Cancel_all.

Lemma settles_refl o : settles o o.
Proof. by left. Qed.

Lemma settles_trans o1 o2 o3 : settles o1 o2 → settles o2 o3 → settles o1 o3.
Proof.
  intros [->| ->] [->| ->]; [by left | by right | by right |].
  right. destruct o1 as [[]|]; done.
Qed.

Lemma settles_to o s :
  cannot_cancel s = true → settles o (Some s) → o = Some s.
Proof.
  intros Hs [H|H]; [done |]. destruct o as [[]|]; simplify_eq/=; done.
Qed.

Lemma settles_from o s :
  cannot_cancel s = true → settles (Some s) o → o = Some s.
Proof. intros Hs [->| ->]; [done |]. by destruct s. Qed.

Lemma future_cancel_state h' m h :
  settles (state_of m h) (state_of (future_cancel h' m).1 h).
Proof.
  unfold future_cancel, state_of, ThreadPoolExecutor.future_state.
  destruct (items m !! h') as [it|] eqn:Hit; [| by left].
  destruct (Future.cancel _) as [s b] eqn:Hs. simpl.
  destruct (decide (h = h')) as [->|Hne].
  - right. rewrite list_lookup_insert_eq by (by eapply lookup_lt_Some).
    rewrite Hit. simpl. by rewrite Hs.
  - left. by rewrite list_lookup_insert_ne.
Qed.

Lemma cancel_task_state m tid h :
  settles (state_of m h) (state_of (cancel_task m tid).1 h).
Proof.
  unfold cancel_task.
  destruct (active_threads m !! tid) as [k|].
  - destruct (qthreads m !! k) as [w|]; by left.
  - destruct (active_futures m !! tid) as [h'|]; [| by left].
    pose proof (future_cancel_state h' m h) as H.
    by destruct (future_cancel h' m) as [m1 []].
Qed.

Lemma cancel_task_threads m tid :
  active_threads (cancel_task m tid).1 = active_threads m.
Proof.
  unfold cancel_task, future_cancel. repeat case_match; simplify_eq/=; done.
Qed.

(** The entries [cancel_task] leaves in [active_futures]. *)
Lemma cancel_task_registry m tid tid' h :
  active_futures (cancel_task m tid).1 !! tid' = Some h
  ↔ active_futures m !! tid' = Some h
    ∧ ¬ (tid' = tid ∧ active_threads m !! tid = None
         ∧ ∃ s, state_of m h = Some s ∧ cannot_cancel s = false).
Proof.
  unfold cancel_task, future_cancel, state_of,
    ThreadPoolExecutor.future_state.
  destruct (active_threads m !! tid) as [k|] eqn:Hk.
  { destruct (qthreads m !! k) as [w|]; simpl;
      (split; [intros H; split; [done | by intros (_ & ? & _)] | by intros [? _]]). }
  destruct (active_futures m !! tid) as [h'|] eqn:Hh'; simpl.
  2: { split; [| by intros [? _]]. intros H. split; [done |].
       intros (-> & _ & _). congruence. }
  destruct (items m !! h') as [it|] eqn:Hit; simpl.
  2: { split; [| by intros [? _]]. intros H. split; [done |].
       intros (-> & _ & s & Hs & _). simplify_eq. by rewrite Hit in Hs. }
  destruct (Future.cancel _) as [s b] eqn:Hs. destruct b; simpl.
  - rewrite lookup_delete_Some. split.
    + intros [Hne H]. split; [done |]. by intros (-> & _).
    + intros [H Hn]. split; [| done]. intros <-. apply Hn.
      split; [done |]. split; [done |]. simplify_eq.
      exists (ThreadPoolExecutor.future it). rewrite Hit. split; [done |].
      by destruct (ThreadPoolExecutor.future it); simplify_eq/=.
  - split; [| by intros [? _]]. intros H. split; [done |].
    intros (-> & _ & s' & Hs' & Hc). simplify_eq. rewrite Hit in Hs'.
    simplify_eq/=. by destruct (ThreadPoolExecutor.future it); simplify_eq/=.
Qed.

Let step := λ (m : t) (task_id : string), (cancel_task m task_id).1.

Lemma cancel_fold_state l m h :
  settles (state_of m h) (state_of (foldl step m l) h).
Proof.
  revert m. induction l as [|a l IH]; intros m; simpl; [apply settles_refl |].
  eapply settles_trans; [apply cancel_task_state | apply IH].
Qed.

Lemma cancel_fold_threads l m :
  active_threads (foldl step m l) = active_threads m.
Proof.
  revert m. induction l as [|a l IH]; intros m; simpl; [done |].
  rewrite IH. apply cancel_task_threads.
Qed.

Lemma cancel_fold_registry_sub l m tid h :
  active_futures (foldl step m l) !! tid = Some h →
  active_futures m !! tid = Some h.
Proof.
  revert m. induction l as [|a l IH]; intros m; simpl; [done |].
  intros H. apply IH in H. by apply cancel_task_registry in H as [? _].
Qed.

Lemma cancel_fold_registry_keeps l m tid h s :
  active_futures m !! tid = Some h →
  state_of m h = Some s → cannot_cancel s = true →
  active_futures (foldl step m l) !! tid = Some h.
Proof.
  revert m. induction l as [|a l IH]; intros m; simpl; [done |].
  intros Hh Hs Hc. apply IH; [| | done].
  - apply cancel_task_registry. split; [done |].
    intros (_ & _ & s' & Hs' & Hc'). congruence.
  - apply (settles_from _ s Hc). rewrite <- Hs. apply cancel_task_state.
Qed.

(** A future still registered after its own turn could not be cancelled. *)
Lemma cancel_fold_registry_left l m tid h :
  Inv m → tid ∈ l →
  active_futures (foldl step m l) !! tid = Some h →
  ∃ s, state_of (foldl step m l) h = Some s ∧ cannot_cancel s = true.
Proof.
  revert m. induction l as [|a l IH]; intros m HI Hin Hh.
  { by apply elem_of_nil in Hin. }
  simpl in *.
  assert (Inv (step m a)) as HI' by (by apply Inv_cancel_task).
  destruct (decide (tid ∈ l)) as [Hl|Hl]; [by apply IH |].
  apply elem_of_cons in Hin as [->|?]; [| done].
  pose proof (cancel_fold_registry_sub _ _ _ _ Hh) as H1.
  apply cancel_task_registry in H1 as [H0 Hn].
  destruct (inv_futures _ HI _ _ H0) as (it & Hit & Hid).
  assert (state_of m h = Some (ThreadPoolExecutor.future it)) as Hs.
  { unfold state_of, ThreadPoolExecutor.future_state. by rewrite Hit. }
  destruct (cannot_cancel (ThreadPoolExecutor.future it)) eqn:Hc.
  - exists (ThreadPoolExecutor.future it). split; [| done].
    apply (settles_from _ _ Hc).
    rewrite <- Hs. eapply settles_trans;
      [apply cancel_task_state | apply cancel_fold_state].
  - destruct Hn. split; [done |]. split; [| by eexists].
    destruct (active_threads m !! a) as [k|] eqn:Hk; [| done].
    by destruct (registries_disjoint m a k h).
Qed.

(** The futures that [cancel_all_tasks] leaves registered are those it
    could not cancel, in the state they were in. *)
Lemma cancel_all_tasks_registry m tid h :
  Inv m →
  active_futures (cancel_all_tasks m) !! tid = Some h
  ↔ active_futures m !! tid = Some h
    ∧ ∃ s, state_of m h = Some s ∧ cannot_cancel s = true.
Proof.
  intros HI. unfold cancel_all_tasks. fold step.
  set (m1 := foldl step m (map_to_list (active_threads m)).*1).
  assert (Inv m1) as HI1 by (apply (Inv_foldl step); [intros; by apply Inv_cancel_task | done]).
  split.
  - intros Hh.
    pose proof (cancel_fold_registry_sub _ _ _ _ Hh) as H1.
    destruct (cancel_fold_registry_left
                (map_to_list (active_futures m1)).*1 m1 tid h HI1)
      as (s & Hs & Hc); [| done |].
    { apply list_elem_of_fmap. exists (tid, h). split; [done |].
      by apply elem_of_map_to_list. }
    split; [by eapply cancel_fold_registry_sub |].
    exists s. split; [| done].
    apply (settles_to _ _ Hc). rewrite <- Hs.
    eapply settles_trans; apply cancel_fold_state.
  - intros (Hh & s & Hs & Hc).
    apply cancel_fold_registry_keeps with (s := s); [| | done].
    + by eapply cancel_fold_registry_keeps.
    + apply (settles_from _ s Hc). rewrite <- Hs. apply cancel_fold_state.
Qed.

Lemma cancel_fold_flags l m tid k :
  Inv m → tid ∈ l → active_threads m !! tid = Some k →
  flagged k (foldl step m l).
Proof.
  revert m. induction l as [|a l IH]; intros m HI Hin Hk.
  { by apply elem_of_nil in Hin. }
  simpl.
  assert (Inv (step m a)) as HI' by (by apply Inv_cancel_task).
  destruct (decide (tid ∈ l)) as [Hl|Hl].
  { apply IH; [done | done |]. unfold step. by rewrite cancel_task_threads. }
  apply elem_of_cons in Hin as [->|?]; [| done].
  apply (foldl_keeps (flagged k) step); [intros; by apply flagged_cancel_task |].
  destruct (inv_threads _ HI _ _ Hk) as (w & Hw & _).
  unfold step, cancel_task. rewrite Hk, Hw. simpl.
  eexists. split; [apply list_lookup_insert_eq; by eapply lookup_lt_Some | done].
Qed.

(** X8. After [cancel_all_tasks] no pooled task is left waiting to start: every
    work item is running, cancelled or has ended.  Every registered worker,
    and so every worker whose thread still runs, has its flag set.  The
    futures left in the registry are exactly those that were running or had
    ended. *)
Theorem cancel_all_tasks_leaves_nothing_queued m :
  reachable m →
  (∀ h it, items (cancel_all_tasks m) !! h = Some it →
           ThreadPoolExecutor.future it ≠ Future.PENDING)
  ∧ (∀ tid k, active_threads (cancel_all_tasks m) !! tid = Some k →
              flagged k (cancel_all_tasks m))
  ∧ (∀ k w, qthreads (cancel_all_tasks m) !! k = Some w →
            WorkerThread.is_live w = true →
            WorkerThread._is_cancelled w = true)
  ∧ (∀ tid h, active_futures (cancel_all_tasks m) !! tid = Some h
              ↔ active_futures m !! tid = Some h
                ∧ ∃ s, state_of m h = Some s ∧ cannot_cancel s = true).
Proof.
  intros Hr. pose proof (reachable_Inv _ Hr) as HI.
  assert (Inv (cancel_all_tasks m)) as HI' by (by apply Inv_cancel_all_tasks).
  assert (∀ tid k, active_threads (cancel_all_tasks m) !! tid = Some k →
                   flagged k (cancel_all_tasks m)) as Hflag.
  { intros tid k Hk. unfold cancel_all_tasks in Hk |- *.
    fold step in Hk |- *. rewrite !cancel_fold_threads in Hk.
    apply (foldl_keeps (flagged k) step); [intros; by apply flagged_cancel_task |].
    apply (cancel_fold_flags _ m tid k HI); [| done].
    apply list_elem_of_fmap. exists (tid, k). split; [done |].
    by apply elem_of_map_to_list. }
  split; [| split; [done | split]].
  - intros h it Hit Hp.
    assert (Future.done (ThreadPoolExecutor.future it) = false) as Hnd
      by (by rewrite Hp).
    pose proof (inv_live_futures _ HI' _ _ Hit Hnd) as Hreg.
    apply (cancel_all_tasks_registry m _ _ HI) in Hreg as (Hh & s & Hs & Hc).
    assert (state_of (cancel_all_tasks m) h = Some s) as Hs'.
    { apply (settles_from _ s Hc). rewrite <- Hs.
      unfold cancel_all_tasks. fold step.
      eapply settles_trans; apply cancel_fold_state. }
    unfold state_of, ThreadPoolExecutor.future_state in Hs'.
    rewrite Hit in Hs'. simplify_eq/=. by rewrite Hp in Hc.
  - intros k w Hw Hl.
    pose proof (inv_live_threads _ HI' _ _ Hw Hl) as Hk.
    destruct (Hflag _ _ Hk) as (w' & Hw' & Hc). by simplify_eq.
  - intros tid h. by apply cancel_all_tasks_registry.
Qed.

End Cancel_all.

(** *** When [shutdown] raises *)
Section Shutdown_exact.

Lemma timer_off_cancel_task m tid :
  cleanup_timer m = false → cleanup_timer (cancel_task m tid).1 = false.
Proof.
  unfold cancel_task, future_cancel. repeat case_match; simplify_eq/=; done.
Qed.

Lemma timer_off_cancel_all_tasks m :
  cleanup_timer m = false → cleanup_timer (cancel_all_tasks m) = false.
Proof.
  intros H. unfold cancel_all_tasks.
  set (f := λ (m : t) (task_id : string), (cancel_task m task_id).1).
  apply (foldl_keeps (λ m, cleanup_timer m = false) f);
    [intros; by apply timer_off_cancel_task |].
  apply (foldl_keeps (λ m, cleanup_timer m = false) f);
    [intros; by apply timer_off_cancel_task | done].
Qed.

Lemma shutdown_outcome m wait timeout :
  reachable m →
  ((shutdown m wait timeout).2 = ShutdownRaises type_error_bool
   ↔ wait = true ∧ is_Some timeout
     ∧ ∃ tid h s, active_futures m !! tid = Some h
                  ∧ state_of m h = Some s ∧ cannot_cancel s = true)
  ∧ (∀ e, (shutdown m wait timeout).2 = ShutdownRaises e → e = type_error_bool)
  ∧ cleanup_timer (shutdown m wait timeout).1 = false
  ∧ ThreadPoolExecutor._shutdown (thread_pool (shutdown m wait timeout).1)
    = match (shutdown m wait timeout).2 with
      | ShutdownRaises _ => ThreadPoolExecutor._shutdown (thread_pool m)
      | _ => true
      end.
Proof.
  intros Hr. pose proof (reachable_Inv _ Hr) as HI.
  pose proof (Inv_with_timer m false HI) as HI0.
  set (m1 := cancel_all_tasks (with_timer false m)).
  assert (cleanup_timer m1 = false) as Htimer
    by (by apply timer_off_cancel_all_tasks).
  assert (ThreadPoolExecutor._shutdown (thread_pool m1)
          = ThreadPoolExecutor._shutdown (thread_pool m)) as Hflag.
  { clear. subst m1. unfold cancel_all_tasks.
    set (f := λ (m : t) (task_id : string), (cancel_task m task_id).1).
    set (P := λ m' : t, ThreadPoolExecutor._shutdown (thread_pool m')
                        = ThreadPoolExecutor._shutdown (thread_pool m)).
    assert (∀ m' a, P m' → P (f m' a)) as Hstep.
    { intros m' a Hm'. unfold P, f, cancel_task, future_cancel in *.
      repeat case_match; simplify_eq/=; done. }
    apply (foldl_keeps P f _ Hstep). by apply (foldl_keeps P f _ Hstep). }
  assert (active_futures m1 ≠ ∅
          ↔ ∃ tid h s, active_futures m !! tid = Some h
                       ∧ state_of m h = Some s ∧ cannot_cancel s = true)
    as Hleft.
  { split.
    - intros Hne. apply map_choose in Hne as (tid & h & Hh).
      apply (cancel_all_tasks_registry _ _ _ HI0) in Hh as (Hh & s & Hs & Hc).
      by exists tid, h, s.
    - intros (tid & h & s & Hh & Hs & Hc) Hempty.
      assert (active_futures m1 !! tid = Some h) as Hreg.
      { apply (cancel_all_tasks_registry _ _ _ HI0). split; [done |].
        by exists s. }
      rewrite Hempty in Hreg. by rewrite lookup_empty in Hreg. }
  unfold shutdown. cbv zeta. fold m1.
  destruct wait.
  - destruct timeout as [z|].
    + rewrite (bool_decide_true (is_Some (Some z))) by (by eexists).
      destruct (decide (active_futures m1 = ∅)) as [He|Hne].
      * rewrite (bool_decide_true (active_futures m1 = ∅)) by done.
        cbn [andb negb fst snd thread_pool with_pool cleanup_timer].
        split; [| split; [| split; [done | by destruct (ThreadPoolExecutor.joins _)]]].
        -- split; [by destruct (ThreadPoolExecutor.joins _) |].
           intros (_ & _ & Hex). by apply Hleft in Hex.
        -- intros e. by destruct (ThreadPoolExecutor.joins _).
      * rewrite (bool_decide_false (active_futures m1 = ∅)) by done.
        cbn [andb negb].
        change (Scope.callee (Scope.shutdown_locals true (Some z)) "wait")
          with (@Raise Scope.pyfunction type_error_bool).
        cbn [fst snd].
        split; [| split; [by intros e [= <-] | split; [done | done]]].
        split; [| done]. intros _. split; [done |]. split; [by eexists |].
        by apply Hleft.
    + rewrite (bool_decide_false (is_Some None)) by (by intros [? ?]).
      cbn [andb negb fst snd thread_pool with_pool cleanup_timer].
      split; [| split; [| split; [done | by destruct (ThreadPoolExecutor.joins _)]]].
      * split; [by destruct (ThreadPoolExecutor.joins _) |].
        by intros (_ & [? ?] & _).
      * intros e. by destruct (ThreadPoolExecutor.joins _).
  - cbn [andb negb fst snd thread_pool with_pool cleanup_timer].
    split; [| split; [done | split; [done | done]]].
    split; [done |]. by intros (? & _).
Qed.

(** X9. When [shutdown] raises.  It raises, with the [TypeError] of a call of
    a boolean, exactly when it is called with [wait] true and a number as
    [timeout] while a registered pooled task is running or has ended
    without having been swept; with [wait=False], or with [timeout=None],
    it never raises.  Whatever happens the cleanup timer is stopped; the
    pool is shut down exactly when no exception is raised. *)
Theorem shutdown_raises_exactly_when m wait timeout :
  reachable m →
  ((shutdown m wait timeout).2 = ShutdownRaises type_error_bool
   ↔ wait = true ∧ is_Some timeout
     ∧ ∃ tid h s, active_futures m !! tid = Some h
                  ∧ state_of m h = Some s ∧ cannot_cancel s = true)
  ∧ (∀ e, (shutdown m wait timeout).2 = ShutdownRaises e → e = type_error_bool)
  ∧ cleanup_timer (shutdown m wait timeout).1 = false
  ∧ ThreadPoolExecutor._shutdown (thread_pool (shutdown m wait timeout).1)
    = match (shutdown m wait timeout).2 with
      | ShutdownRaises _ => ThreadPoolExecutor._shutdown (thread_pool m)
      | _ => true
      end.
Proof. apply shutdown_outcome. Qed.

End Shutdown_exact.

(** *** The [finished] signal of a worker *)
Section Finished_signal.

Lemma notified_cancel_task m tid :
  notified_unregistered m → notified_unregistered (cancel_task m tid).1.
Proof.
  intros Hn. unfold cancel_task.
  destruct (active_threads m !! tid) as [k'|].
  - destruct (qthreads m !! k') as [w'|] eqn:Hw'; [| done].
    intros k w Hw Hnot. simpl in *.
    apply list_lookup_insert_Some in Hw as [(-> & <- & _)|[_ Hw]];
      simpl; by eapply Hn.
  - destruct (active_futures m !! tid) as [h|]; [| done].
    unfold future_cancel. repeat case_match; simplify_eq/=; done.
Qed.

Lemma notified_future_cancel h m :
  notified_unregistered m → notified_unregistered (future_cancel h m).1.
Proof. unfold future_cancel. repeat case_match; simplify_eq/=; done. Qed.

Lemma notified_exec_op o m :
  Inv m → notified_unregistered m → notified_unregistered (exec_op o m).1.
Proof.
  intros HI Hn. destruct o; simpl.
  - unfold submit_task, next_task_id. destruct use_qthread; simpl.
    + destruct (next_id_fresh m task_name now HI) as [_ Hf].
      intros k w Hw Hnot. simpl in *.
      apply lookup_app_Some in Hw as [Hw|[_ Hw]].
      * rewrite lookup_insert_ne; [by eapply Hn |].
        intros Heq. apply Hf. rewrite Heq. by eapply worker_id_elem.
      * apply list_lookup_singleton_Some in Hw as [_ <-]. done.
    + unfold ThreadPoolExecutor.submit.
      destruct (ThreadPoolExecutor._shutdown _); exact Hn.
  - pose proof (notified_cancel_task m task_id Hn). by destruct (cancel_task _ _).
  - unfold cancel_all_tasks.
    set (f := λ (m : t) (task_id : string), (cancel_task m task_id).1).
    apply (foldl_keeps _ f); [intros; by apply notified_cancel_task |].
    apply (foldl_keeps _ f); [intros; by apply notified_cancel_task | done].
  - unfold shutdown.
    set (m1 := cancel_all_tasks (with_timer false m)).
    assert (notified_unregistered m1) as H1.
    { subst m1. unfold cancel_all_tasks.
      set (f := λ (m : t) (task_id : string), (cancel_task m task_id).1).
      apply (foldl_keeps _ f); [intros; by apply notified_cancel_task |].
      apply (foldl_keeps _ f); [intros; by apply notified_cancel_task | done]. }
    destruct (_ && _ && _).
    + destruct (Scope.callee _ _) as [[]|e]; [| done].
      destruct (futures_wait m1 _) as [dn nd]. simpl.
      apply (foldl_keeps notified_unregistered
               (λ m future, (future_cancel future m).1));
        [intros; by apply notified_future_cancel | done].
    + done.
  - by destruct (cleanup_timer m).
  - unfold thread_finished, _cleanup_thread.
    destruct (qthreads m !! k) as [w'|] eqn:Hw'; [| done].
    destruct (WorkerThread.at_pc w') eqn:Hpc; try done. simpl.
    assert (∀ k0 w, <[k := WorkerThread.with_pc WorkerThread.FinishedNotified w']>
                      (qthreads m) !! k0 = Some w →
                    notified w = true →
                    WorkerThread.task_id w = WorkerThread.task_id w'
                    ∨ active_threads m !! WorkerThread.task_id w = None) as Hcases.
    { intros k0 w Hw Hnot.
      apply list_lookup_insert_Some in Hw as [(-> & <- & _)|[_ Hw]];
        [by left | right; by eapply Hn]. }
    destruct (active_threads m !! WorkerThread.task_id w') eqn:Hreg;
      intros k0 w Hw Hnot; simpl in *;
      destruct (Hcases _ _ Hw Hnot) as [Heq|Hnone].
    + rewrite Heq. apply lookup_delete_eq.
    + apply lookup_delete_None. by right.
    + by rewrite Heq.
    + done.
  - unfold pool_pick. repeat case_match; done.
  - unfold pool_step. repeat case_match; done.
  - unfold worker_step.
    destruct (qthreads m !! k) as [w'|] eqn:Hw'; [| done].
    assert (∀ w'' ss,
              WorkerThread.task_id w'' = WorkerThread.task_id w' →
              notified w'' = false →
              notified_unregistered
                (emit ss (with_qthreads (<[k := w'']> (qthreads m)) m))) as Hput.
    { intros w'' ss Hid Hnn k0 w Hw Hnot. simpl in *.
      apply list_lookup_insert_Some in Hw as [(-> & <- & _)|[_ Hw]];
        [congruence | by eapply Hn]. }
    destruct (WorkerThread.at_pc w') eqn:Hpc; try done.
    + by apply Hput.
    + destruct (calls _); [destruct (ending _);
        [destruct (WorkerThread._is_cancelled w') |] |];
        try (by apply Hput).
      rewrite <- emit_nil. by apply Hput.
Qed.

Lemma notified_run ops m :
  Inv m → notified_unregistered m → notified_unregistered (run ops m).1.
Proof.
  revert m. induction ops as [|o ops IH]; intros m HI Hn; simpl; [done |].
  pose proof (Inv_exec_op o m HI) as HI1.
  pose proof (notified_exec_op o m HI Hn) as H1.
  destruct (exec_op o m) as [m1 r]. specialize (IH m1 HI1 H1).
  by destruct (run ops m1).
Qed.

(** X12. Once the [finished] signal of a dedicated worker has been delivered,
    its task is out of the registry for good: [get_active_tasks] does not
    list it in any later state. *)
Theorem finished_worker_leaves_registry m k w :
  reachable m →
  qthreads m !! k = Some w →
  notified w = true →
  WorkerThread.task_id w ∉ get_active_tasks m.
Proof.
  intros Hr Hw Hnot. pose proof (reachable_Inv _ Hr) as HI.
  destruct Hr as (n & m0 & ops & Hinit & <-).
  assert (notified_unregistered (run ops m0).1) as Hn.
  { apply notified_run; [by eapply Inv_init |].
    unfold __init__, ThreadPoolExecutor.new in Hinit.
    case_decide; simplify_eq. intros k' w' Hw'. simpl in Hw'. by rewrite lookup_nil in Hw'. }
  intros Hin. apply elem_of_get_active_tasks in Hin as [[k' Hk']|[h Hh]].
  - by rewrite (Hn _ _ Hw Hnot) in Hk'.
  - destruct (inv_futures _ HI _ _ Hh) as (it & Hit & Hid).
    by destruct (item_worker_id_ne _ h k it w HI Hit Hw).
Qed.

End Finished_signal.

(** *** Once the cleanup timer is stopped *)
Section Stopped_timer.

Variables (tid : string) (h : nat).

Lemma held_intro m m' :
  cleanup_timer m' = cleanup_timer m →
  active_futures m' = active_futures m →
  state_of m' h = state_of m h →
  held tid h m → held tid h m'.
Proof. unfold held. by intros -> -> ->. Qed.

Lemma held_cancel_task m tid' : held tid h m → held tid h (cancel_task m tid').1.
Proof.
  intros (Ht & Hh & s & Hs & Hc).
  split; [by apply timer_off_cancel_task |]. split.
  - apply cancel_task_registry. split; [done |].
    intros (_ & _ & s' & Hs' & Hc'). congruence.
  - exists s. split; [| done].
    apply (settles_from _ s Hc). rewrite <- Hs. apply cancel_task_state.
Qed.

Lemma held_future_cancel m h' : held tid h m → held tid h (future_cancel h' m).1.
Proof.
  intros (Ht & Hh & s & Hs & Hc).
  assert (cleanup_timer (future_cancel h' m).1 = false
          ∧ active_futures (future_cancel h' m).1 = active_futures m)
    as [Ht' Hreg].
  { unfold future_cancel. repeat case_match; simplify_eq/=; done. }
  split; [done |]. split; [by rewrite Hreg |].
  exists s. split; [| done].
  apply (settles_from _ s Hc). rewrite <- Hs. apply future_cancel_state.
Qed.

Lemma held_cancel_all_tasks m : held tid h m → held tid h (cancel_all_tasks m).
Proof.
  intros H. unfold cancel_all_tasks.
  set (f := λ (m : t) (task_id : string), (cancel_task m task_id).1).
  apply (foldl_keeps (held tid h) f); [intros; by apply held_cancel_task |].
  apply (foldl_keeps (held tid h) f); [intros; by apply held_cancel_task | done].
Qed.

Lemma held_pool_shutdown m :
  held tid h m →
  held tid h (with_pool (ThreadPoolExecutor.shutdown (thread_pool m)) m).
Proof. intros (? & ? & ?). by split. Qed.

Lemma held_shutdown m wait timeout :
  held tid h (with_timer false m) → held tid h (shutdown m wait timeout).1.
Proof.
  intros H. unfold shutdown. cbv zeta.
  set (m1 := cancel_all_tasks (with_timer false m)).
  assert (held tid h m1) as H1 by (by apply held_cancel_all_tasks).
  destruct (_ && _ && _).
  - destruct (Scope.callee _ _) as [[]|e]; [| done].
    destruct (futures_wait m1 _) as [dn nd]. cbn [fst].
    apply held_pool_shutdown.
    apply (foldl_keeps (held tid h)); [| done].
    intros; by apply held_future_cancel.
  - cbn [fst]. by apply held_pool_shutdown.
Qed.

Lemma held_exec_op o m : Inv m → held tid h m → held tid h (exec_op o m).1.
Proof.
  intros HI H. pose proof H as (Ht & Hh & s & Hs & Hc).
  destruct o; simpl.
  - unfold submit_task, next_task_id. destruct use_qthread; simpl.
    + by apply (held_intro m).
    + unfold ThreadPoolExecutor.submit.
      destruct (ThreadPoolExecutor._shutdown _); simpl;
        [by apply (held_intro m) |].
      destruct (inv_futures _ HI _ _ Hh) as (it & Hit & Hid).
      destruct (next_id_fresh m task_name now HI) as [Hf _].
      split; [done |]. split; simpl.
      * rewrite lookup_insert_ne; [done |].
        intros Heq. apply Hf. rewrite Heq, <- Hid. by eapply item_id_elem.
      * exists s. split; [| done]. revert Hs.
        unfold state_of, ThreadPoolExecutor.future_state. simpl.
        destruct (items m !! h) as [it0|] eqn:Hit0; [| done].
        by rewrite (lookup_app_l_Some _ _ _ _ Hit0).
  - pose proof (held_cancel_task m task_id H). by destruct (cancel_task _ _).
  - by apply held_cancel_all_tasks.
  - assert (held tid h (with_timer false m)) as H0
      by (split; [done | split; [done | by exists s]]).
    pose proof (held_shutdown m wait timeout H0). by destruct (shutdown _ _ _).
  - by rewrite Ht.
  - unfold thread_finished, _cleanup_thread.
    repeat case_match; try done; by apply (held_intro m).
  - unfold pool_pick.
    destruct (items m !! h0) as [it|] eqn:Hit; [| done].
    destruct (_ && _) eqn:Hg; [| done].
    apply andb_prop in Hg as [Hp _].
    apply (held_intro m); [done | done | | done].
    unfold state_of, ThreadPoolExecutor.future_state in *. simpl.
    destruct (decide (h = h0)) as [->|Hne].
    + rewrite Hit in Hs. simplify_eq/=.
      unfold ThreadPoolExecutor.is_pending in Hp.
      by destruct (ThreadPoolExecutor.future it).
    + by rewrite list_lookup_insert_ne.
  - unfold pool_step.
    destruct (items m !! h0) as [it|] eqn:Hit; [| done].
    destruct (ThreadPoolExecutor.is_running it) eqn:Hrun; [| done].
    assert (∀ it' ss,
              cannot_cancel (ThreadPoolExecutor.future it') = true →
              held tid h (emit ss (with_pool
                (ThreadPoolExecutor.set_item h0 it' (thread_pool m)) m)))
      as Hput.
    { intros it' ss Hc'. split; [done |]. split; [done |].
      unfold state_of, ThreadPoolExecutor.future_state in *. simpl.
      destruct (decide (h = h0)) as [->|Hne].
      - rewrite list_lookup_insert_eq by (by eapply lookup_lt_Some).
        by eexists.
      - rewrite list_lookup_insert_ne by done. by exists s. }
    destruct (calls _); [destruct (ending _) |]; by apply Hput.
  - unfold worker_step. repeat case_match; try done; by apply (held_intro m).
Qed.

Lemma held_run ops m : Inv m → held tid h m → held tid h (run ops m).1.
Proof.
  revert m. induction ops as [|o ops IH]; intros m HI H; simpl; [done |].
  pose proof (Inv_exec_op o m HI) as HI1.
  pose proof (held_exec_op o m HI H) as H1.
  destruct (exec_op o m) as [m1 r]. specialize (IH m1 HI1 H1).
  by destruct (run ops m1).
Qed.

End Stopped_timer.

Section Shutdown_failure.

(** X11. After [shutdown] has been called, however it ended, nothing removes a
    pooled task that has started from the registry: the sweep is driven by
    the timer that [shutdown] stopped, and [cancel_task] removes only what
    it could cancel.  The task stays in [get_active_tasks] whatever is
    done afterwards. *)
Theorem started_task_stays_listed_after_shutdown m wait timeout tid h s ops :
  reachable m →
  active_futures m !! tid = Some h →
  state_of m h = Some s →
  cannot_cancel s = true →
  let m' := (run ops (shutdown m wait timeout).1).1 in
  active_futures m' !! tid = Some h
  ∧ tid ∈ get_active_tasks m'
  ∧ cleanup_timer m' = false.
Proof.
  intros Hr Hh Hs Hc m'. pose proof (reachable_Inv _ Hr) as HI.
  assert (held tid h m') as (Ht & Hh' & _).
  { apply held_run; [by apply Inv_shutdown |].
    apply held_shutdown. split; [done |]. split; [done |]. by exists s. }
  split; [done |]. split; [| done].
  apply elem_of_get_active_tasks. right. by eexists.
Qed.

Lemma shutdown_raises_again m e timeout ops timeout' :
  reachable m →
  (shutdown m true (Some timeout)).2 = ShutdownRaises e →
  (shutdown (run ops (shutdown m true (Some timeout)).1).1 true (Some timeout')).2
  = ShutdownRaises type_error_bool.
Proof.
  intros Hr He. pose proof (reachable_Inv _ Hr) as HI.
  destruct (shutdown_outcome m true (Some timeout) Hr)
    as (Hiff & Honly & _).
  rewrite (Honly e He) in He.
  apply Hiff in He as (_ & _ & tid & h & s & Hh & Hs & Hc).
  set (m1 := (shutdown m true (Some timeout)).1).
  assert (reachable m1) as Hr1.
  { apply (reachable_run [Shutdown true (Some timeout)] m) in Hr.
    simpl in Hr. subst m1. by destruct (shutdown m true (Some timeout)). }
  assert (held tid h (run ops m1).1) as (_ & Hh' & s' & Hs' & Hc').
  { apply held_run; [by apply reachable_Inv |]. apply held_shutdown.
    split; [done |]. split; [done |]. by exists s. }
  apply (shutdown_outcome _ true (Some timeout')
           (reachable_run ops m1 Hr1)).
  split; [done |]. split; [by eexists |]. by exists tid, h, s'.
Qed.

(** X10. A failed [shutdown] cannot be repeated with success.  Once
    [shutdown(wait=True, timeout=T)] has raised, every later call of
    [shutdown] with [wait] true and a number as [timeout] raises again,
    whatever the interface and the threads have done in between. *)
Theorem shutdown_failure_is_permanent m e timeout ops timeout' :
  reachable m →
  (shutdown m true (Some timeout)).2 = ShutdownRaises e →
  (shutdown (run ops (shutdown m true (Some timeout)).1).1 true (Some timeout')).2
  = ShutdownRaises type_error_bool.
Proof. apply shutdown_raises_again. Qed.

End Shutdown_failure.
(** ** The signals of one task *)

Section Moves.

Lemma micro_view m m1 m2 : micro m m1 → view m2 = view m1 → micro m m2.
Proof.
  intros [H|h it it' ss ? ? H|k w w' ss ? ? H|it ? ? ? H|w ? ? ? ? H] Hv;
    rewrite <- Hv in H;
    [by apply micro_same | by eapply micro_item | by eapply micro_worker
    | by eapply micro_add_item | by eapply micro_add_worker].
Qed.








End Moves.

Section Wired_facts.



















End Wired_facts.

Section Signals_of.








End Signals_of.

Section Pooled_task.

Variables (tid : string) (h : nat) (kw : gmap string pyobj) (f : callable).
Hypothesis plain_kw : plain_kwargs kw.




End Pooled_task.

Section Worker_task.

Variables (tid : string) (k : nat) (kw : gmap string pyobj) (f : callable).
Hypothesis plain_kw : plain_kwargs kw.




End Worker_task.

Section Task_signals.




End Task_signals.
(** *** The global instance *)
Section Global_instance.
Import Global.

(** X15. [shutdown_thread_manager] clears the global instance, so that the next
    [get_thread_manager] makes a new manager, exactly when no pooled task
    that has started is registered.  Otherwise it raises [TypeError] and
    the global stays bound to the manager, with its timer stopped and its
    pool not shut down; [get_thread_manager] goes on returning it, and
    every later [shutdown_thread_manager] raises again. *)
Theorem shutdown_thread_manager_clears_or_sticks m :
  reachable m →
  let started := ∃ tid h s, active_futures m !! tid = Some h
                            ∧ state_of m h = Some s ∧ cannot_cancel s = true in
  let g' := (shutdown_thread_manager (Some m)).1 in
  (¬ started →
   g' = None
   ∧ get_thread_manager g' = (Some fresh_manager, Return fresh_manager))
  ∧ (started →
     ∃ m', g' = Some m'
       ∧ (shutdown_thread_manager (Some m)).2 = ShutdownRaises type_error_bool
       ∧ get_thread_manager g' = (g', Return m')
       ∧ cleanup_timer m' = false
       ∧ ThreadPoolExecutor._shutdown (thread_pool m')
         = ThreadPoolExecutor._shutdown (thread_pool m)
       ∧ ∀ ops,
           shutdown_thread_manager (Some (run ops m').1)
           = (Some (shutdown (run ops m').1 true (Some 10%Z)).1,
              ShutdownRaises type_error_bool)).
Proof.
  intros Hr started g'.
  destruct (shutdown_outcome m true (Some 10%Z) Hr)
    as (Hiff & Honly & Htimer & Hflag).
  split.
  - intros Hno. subst g'. unfold shutdown_thread_manager.
    destruct (shutdown m true (Some 10%Z)) as [m' e] eqn:Hsd. simpl in *.
    destruct e as [|e|]; try done.
    rewrite (Honly e eq_refl) in Hiff.
    destruct Hno. by apply Hiff.
  - intros Hst.
    assert ((shutdown m true (Some 10%Z)).2 = ShutdownRaises type_error_bool)
      as Hraise.
    { apply Hiff. split; [done |]. split; [by eexists | done]. }
    exists (shutdown m true (Some 10%Z)).1. subst g'.
    unfold shutdown_thread_manager.
    destruct (shutdown m true (Some 10%Z)) as [m' e] eqn:Hsd. simpl in *.
    subst e. simpl. split; [done |]. split; [done |]. split; [done |].
    split; [done |]. split.
    + done.
    + intros ops.
      pose proof (shutdown_raises_again m type_error_bool 10 ops 10 Hr)
        as Hperm.
      rewrite Hsd in Hperm. simpl in Hperm. specialize (Hperm eq_refl).
      destruct (shutdown (run ops m').1 true (Some 10%Z)) as [m'' e'].
      simpl in *. by subst e'.
Qed.

End Global_instance.

(** *** The further properties on concrete executions *)
Section More_examples.


Lemma make_id_inj_witness :
  make_id (Some "") 7 1700000000 = make_id None 7 1700000000
  ∧ (7 = 7 ∧ 1700000000 = 1700000000)%N.
Proof.
  split; [reflexivity |].
  destruct (make_id_inj (Some "") None 7 7 1700000000 1700000000 eq_refl)
    as (H1 & H2 & _).
  exact (conj H1 H2).
Defined.

Lemma issued_in_counter_order_witness :
  issued (run run_two_new fresh_manager).2 !! 0 = Some id1
  ∧ issued (run run_two_new fresh_manager).2 !! 1 = Some id2
  ∧ has_counter id1 1 ∧ has_counter id2 2
  ∧ (1 < 2)%N.
Proof.
  assert (issued (run run_two_new fresh_manager).2 !! 0 = Some id1) as H1
    by (by vm_compute).
  assert (issued (run run_two_new fresh_manager).2 !! 1 = Some id2) as H2
    by (by vm_compute).
  assert (has_counter id1 1) as H3 by (by exists None, 1700000000%N).
  assert (has_counter id2 2) as H4 by (by exists None, 1700000000%N).
  split; [exact H1 |]. split; [exact H2 |]. split; [exact H3 |].
  split; [exact H4 |].
  apply (issued_in_counter_order run_two_new fresh_manager 0 1 id1 id2 1 2
           H1 H2); [lia | exact H3 | exact H4].
Defined.

Lemma active_tasks_distinct_and_counted_witness :
  let m := (run run_two_new fresh_manager).1 in
  reachable m
  ∧ NoDup (get_active_tasks m)
  ∧ (get_task_count m).2 = length (get_active_tasks m).
Proof.
  intros m. split; [apply reachable_fresh |].
  destruct (active_tasks_distinct_and_counted m (reachable_fresh run_two_new))
    as (H1 & H2 & _).
  exact (conj H1 H2).
Defined.


Lemma cancel_running_pooled_is_noop_witness :
  let m := (run run_to_end fresh_manager).1 in
  active_futures m !! id1 = Some 0
  ∧ items m !! 0 = Some ended_item
  ∧ cancel_task m id1 = (m, false).
Proof.
  intros m.
  assert (active_futures m !! id1 = Some 0) as H1 by (by vm_compute).
  assert (items m !! 0 = Some ended_item) as H2 by (by vm_compute).
  split; [exact H1 |]. split; [exact H2 |].
  apply (cancel_running_pooled_is_noop m id1 0 ended_item
           (reachable_fresh run_to_end) H1 H2);
    [left; reflexivity | discriminate].
Defined.

Lemma cancel_all_tasks_leaves_nothing_queued_witness :
  let m := (run run_two_new fresh_manager).1 in
  reachable m
  ∧ (∀ h it, items (cancel_all_tasks m) !! h = Some it →
             ThreadPoolExecutor.future it ≠ Future.PENDING)
  ∧ (∀ tid k, active_threads (cancel_all_tasks m) !! tid = Some k →
              flagged k (cancel_all_tasks m)).
Proof.
  intros m. split; [apply reachable_fresh |].
  destruct (cancel_all_tasks_leaves_nothing_queued m
              (reachable_fresh run_two_new)) as (H1 & H2 & _).
  exact (conj H1 H2).
Defined.

Lemma shutdown_raises_exactly_when_witness :
  let m := (run run_to_end fresh_manager).1 in
  reachable m
  ∧ ((shutdown m true (Some 10%Z)).2 = ShutdownRaises type_error_bool
     ↔ true = true ∧ is_Some (Some 10%Z)
       ∧ ∃ tid h s, active_futures m !! tid = Some h
                    ∧ state_of m h = Some s ∧ cannot_cancel s = true).
Proof.
  intros m. split; [apply reachable_fresh |].
  destruct (shutdown_raises_exactly_when m true (Some 10%Z)
              (reachable_fresh run_to_end)) as (H1 & _).
  exact H1.
Defined.

Lemma finished_worker_leaves_registry_witness :
  let m := (run run_cancel_midway fresh_manager).1 in
  qthreads m !! 0 = Some notified_worker
  ∧ notified notified_worker = true
  ∧ (id1 ∉ get_active_tasks m).
Proof.
  intros m.
  assert (qthreads m !! 0 = Some notified_worker) as H1 by (by vm_compute).
  split; [exact H1 |]. split; [reflexivity |].
  apply (finished_worker_leaves_registry m 0 notified_worker
           (reachable_fresh run_cancel_midway) H1 eq_refl).
Defined.

Lemma started_task_stays_listed_after_shutdown_witness :
  let m := (run run_to_end fresh_manager).1 in
  let m' := (run [TimerFires; Cancel id1; CancelAll]
               (shutdown m false None).1).1 in
  active_futures m !! id1 = Some 0
  ∧ state_of m 0 = Some (Future.FINISHED (Return (PyOpaque 0)))
  ∧ active_futures m' !! id1 = Some 0
  ∧ id1 ∈ get_active_tasks m'
  ∧ cleanup_timer m' = false.
Proof.
  intros m m'.
  assert (active_futures m !! id1 = Some 0) as H1 by (by vm_compute).
  assert (state_of m 0 = Some (Future.FINISHED (Return (PyOpaque 0)))) as H2
    by (by vm_compute).
  split; [exact H1 |]. split; [exact H2 |].
  apply (started_task_stays_listed_after_shutdown m false None id1 0
           (Future.FINISHED (Return (PyOpaque 0)))
           [TimerFires; Cancel id1; CancelAll]
           (reachable_fresh run_to_end) H1 H2 eq_refl).
Defined.

Lemma shutdown_failure_is_permanent_witness :
  let m := (run run_to_end fresh_manager).1 in
  (shutdown m true (Some 0%Z)).2 = ShutdownRaises type_error_bool
  ∧ (shutdown (run [TimerFires; CancelAll] (shutdown m true (Some 0%Z)).1).1
       true (Some 10%Z)).2
    = ShutdownRaises type_error_bool.
Proof.
  intros m.
  assert ((shutdown m true (Some 0%Z)).2 = ShutdownRaises type_error_bool)
    as H1 by (by vm_compute).
  split; [exact H1 |].
  apply (shutdown_failure_is_permanent m type_error_bool 0
           [TimerFires; CancelAll] 10 (reachable_fresh run_to_end) H1).
Defined.



Lemma shutdown_thread_manager_clears_or_sticks_witness :
  let m := (run run_to_end fresh_manager).1 in
  reachable m
  ∧ ((∃ tid h s, active_futures m !! tid = Some h
                 ∧ state_of m h = Some s ∧ cannot_cancel s = true) →
     ∃ m', (Global.shutdown_thread_manager (Some m)).1 = Some m'
           ∧ (Global.shutdown_thread_manager (Some m)).2
             = ShutdownRaises type_error_bool).
Proof.
  intros m. split; [apply reachable_fresh |].
  intros Hst.
  destruct (shutdown_thread_manager_clears_or_sticks m
              (reachable_fresh run_to_end)) as [_ H].
  destruct (H Hst) as (m' & H1 & H2 & _).
  exists m'. exact (conj H1 H2).
Defined.

End More_examples.
